(** * Stanis_Clock: the log analyser of the test environment

    A shallow embedding of [test_environment/scripts/analyze_logs.py]
    (class [LogAnalyzer]) and the properties of its parsing, aggregation,
    correlation and report steps.

    Conventions of the model.
    - Text is 7-bit: a Python [str] is a [string] of [ascii] characters, and
      the character classes of [str.strip], [str.split], [str.lower] and of
      the [re] module are the ones Python applies to code points below 128.
    - A log file is the list of lines that [for line in f] yields (each line
      keeps its final newline); a file that does not exist is [None].
    - [datetime.now()] reads a clock that the model passes explicitly.
    - A Python exception is a value [Raise e] of the result type. *)

From Stdlib Require Import String Ascii List Bool Arith Lia Permutation Sorted.
Import ListNotations.
Open Scope list_scope.
Open Scope string_scope.

Set Implicit Arguments.

(* ------------------------------------------------------------------ *)
(** ** Python's string operations *)

Module Text.

Definition code (c : ascii) : nat := nat_of_ascii c.

Definition between (lo hi n : nat) : bool :=
  Nat.leb lo n && Nat.leb n hi.

(** [str.isspace] on one character: TAB, LF, VT, FF, CR, the four
    separators FS, GS, RS, US, and the space. *)
Definition isspace (c : ascii) : bool :=
  between 9 13 (code c) || between 28 32 (code c).

(** [\d] *)
Definition isdigit (c : ascii) : bool := between 48 57 (code c).

(** [\w]: letters, digits and the underscore. *)
Definition isword (c : ascii) : bool :=
  isdigit c || between 65 90 (code c) || between 97 122 (code c)
  || Nat.eqb (code c) 95.

(** [.] without the DOTALL flag: anything but a newline. *)
Definition notnl (c : ascii) : bool := negb (Nat.eqb (code c) 10).

(** [[^\s]] *)
Definition nonspace (c : ascii) : bool := negb (isspace c).

(** A character set such as [[EWID]]. *)
Fixpoint oneof (set : string) (c : ascii) : bool :=
  match set with
  | EmptyString => false
  | String d set' => Ascii.eqb c d || oneof set' c
  end.

Definition lower_char (c : ascii) : ascii :=
  if between 65 90 (code c) then ascii_of_nat (code c + 32) else c.

(** [s.lower()] *)
Fixpoint lower (s : string) : string :=
  match s with
  | EmptyString => EmptyString
  | String c s' => String (lower_char c) (lower s')
  end.

(** [needle in hay] *)
Fixpoint isin (needle hay : string) : bool :=
  if prefix needle hay then true
  else match hay with
       | EmptyString => false
       | String _ hay' => isin needle hay'
       end.

Fixpoint lstrip (s : string) : string :=
  match s with
  | EmptyString => EmptyString
  | String c s' => if isspace c then lstrip s' else s
  end.

Fixpoint rstrip (s : string) : string :=
  match s with
  | EmptyString => EmptyString
  | String c s' =>
      match rstrip s' with
      | EmptyString => if isspace c then EmptyString else String c EmptyString
      | t => String c t
      end
  end.

(** [s.strip()] *)
Definition strip (s : string) : string := rstrip (lstrip s).

(** [s.split()]: the maximal runs of non-space characters, in order.
    [tok] is the run being read, if one has started. *)
Fixpoint split_from (tok : option string) (s : string) : list string :=
  match s with
  | EmptyString =>
      match tok with Some t => [t] | None => [] end
  | String c s' =>
      if isspace c then
        match tok with
        | Some t => t :: split_from None s'
        | None => split_from None s'
        end
      else
        split_from (Some (match tok with
                          | Some t => t ++ String c EmptyString
                          | None => String c EmptyString
                          end)) s'
  end.

Definition split (s : string) : list string := split_from None s.

(** Every character of [s] is in the class [p]. *)
Fixpoint all (p : ascii -> bool) (s : string) : bool :=
  match s with
  | EmptyString => true
  | String c s' => p c && all p s'
  end.

(** [s] is empty or starts with a character outside [p]. *)
Definition stops (p : ascii -> bool) (s : string) : bool :=
  match s with
  | EmptyString => true
  | String c _ => negb (p c)
  end.

End Text.

(* ------------------------------------------------------------------ *)
(** ** The fragment of [re] the analyser uses

    Both patterns of the script are sequences of single characters, character
    classes and one-or-more repetitions of a class, some of them inside a
    capturing group.  [search] is [re.search]: the leftmost position at which
    the pattern matches, repetitions greedy, with backtracking. *)

Module Re.

Inductive atom : Type :=
| Chr (p : ascii -> bool)       (* one character of the class *)
| Plus (p : ascii -> bool).     (* [p+] *)

Inductive item : Type :=
| Grp (a : atom)                (* [(a)] *)
| Raw (a : atom).

Definition pattern := list item.

Definition atom_of (i : item) : atom :=
  match i with Grp a | Raw a => a end.

(** What an item adds to the groups of the match. *)
Definition keep (i : item) (text : string) (groups : list string)
  : list string :=
  match i with Grp _ => text :: groups | Raw _ => groups end.

(** The literal text [s]. *)
Fixpoint lit (s : string) : pattern :=
  match s with
  | EmptyString => []
  | String c s' => Raw (Chr (Ascii.eqb c)) :: lit s'
  end.

Section Greedy.
Variable R : Type.
Variable p : ascii -> bool.
(** [k run rest]: the rest of the pattern, tried on [rest] once the
    repetition has taken [run]. *)
Variable k : string -> string -> option R.

(** One more character of the repetition: the longer runs are tried
    before the shorter ones. *)
Fixpoint greedy (run s : string) : option R :=
  match s with
  | EmptyString => None
  | String c s' =>
      if p c then
        let run' := run ++ String c EmptyString in
        match greedy run' s' with
        | Some r => Some r
        | None => k run' s'
        end
      else None
  end.
End Greedy.

(** The pattern matched at the start of [s]: the groups, in order. *)
Fixpoint match_at (pat : pattern) (s : string) : option (list string) :=
  match pat with
  | [] => Some []
  | i :: pat' =>
      match atom_of i with
      | Chr p =>
          match s with
          | EmptyString => None
          | String c s' =>
              if p c
              then option_map (keep i (String c EmptyString)) (match_at pat' s')
              else None
          end
      | Plus p =>
          greedy p (fun run rest => option_map (keep i run) (match_at pat' rest))
                 EmptyString s
      end
  end.

(** [re.search(pat, s)] followed by [.groups()]. *)
Fixpoint search (pat : pattern) (s : string) : option (list string) :=
  match match_at pat s with
  | Some groups => Some groups
  | None =>
      match s with
      | EmptyString => None
      | String _ s' => search pat s'
      end
  end.

(** [shape pat text groups]: [text] is an instance of the pattern whose
    groups are [groups]. *)
Inductive shape : pattern -> string -> list string -> Prop :=
| shape_nil : shape [] EmptyString []
| shape_chr i p pat c text groups :
    atom_of i = Chr p -> p c = true -> shape pat text groups ->
    shape (i :: pat) (String c text) (keep i (String c EmptyString) groups)
| shape_plus i p pat run text groups :
    atom_of i = Plus p -> run <> EmptyString -> Text.all p run = true ->
    shape pat text groups ->
    shape (i :: pat) (run ++ text) (keep i run groups).

End Re.

Import Text.

Definition LF : string := String (ascii_of_nat 10) EmptyString.
Definition TAB : string := String (ascii_of_nat 9) EmptyString.

(** [r'([EWID]) \((\d+)\) (\w+): (.+)'] *)
Definition esp_log_re : Re.pattern :=
  ([Re.Grp (Re.Chr (oneof "EWID"))] ++ Re.lit " (" ++
   [Re.Grp (Re.Plus isdigit)] ++ Re.lit ") " ++
   [Re.Grp (Re.Plus isword)] ++ Re.lit ": " ++
   [Re.Grp (Re.Plus notnl)])%list.

(** [r'\[MQTT\] ([^\s]+) (.+)'] *)
Definition mqtt_re : Re.pattern :=
  (Re.lit "[MQTT] " ++ [Re.Grp (Re.Plus nonspace)] ++ Re.lit " " ++
   [Re.Grp (Re.Plus notnl)])%list.

(* ------------------------------------------------------------------ *)
(** ** Python values of the analyser *)

(** A [defaultdict(list)] with string keys.  Python dictionaries keep
    their keys in the order of first insertion, and [items()] follows it. *)
Module DefaultDict.
Section Dict.
Variable V : Type.

Definition t := list (string * list V).

(** [d[k].append(v)] *)
Fixpoint append (k : string) (v : V) (d : t) : t :=
  match d with
  | [] => [(k, [v])]
  | (k', vs) :: d' =>
      if String.eqb k' k then (k', vs ++ [v]) :: d'
      else (k', vs) :: append k v d'
  end%list.

(** [d.get(k, [])] *)
Fixpoint get (k : string) (d : t) : list V :=
  match d with
  | [] => []
  | (k', vs) :: d' => if String.eqb k' k then vs else get k d'
  end.

(** All the values, dictionary order first. *)
Definition values (d : t) : list V := concat (map snd d).
End Dict.
End DefaultDict.

(** The [entry] dictionary of [analyze_serial_log].  [oid] is the identity
    of the Python object (the same dictionary is appended to a severity list
    and to the tag index); it is the number of the line that created it and
    is not part of the serialised report. *)
Module Log.
Record entry : Type :=
  { oid : nat; timestamp : string; tag : string; message : string }.

Definition same (a b : entry) : bool := Nat.eqb (oid a) (oid b).
End Log.

(** The [entry] dictionary of [analyze_mqtt_log]. *)
Module Msg.
Record entry : Type :=
  { topic : string; payload : string; timestamp : string }.
End Msg.

(** One element of [serial_responses]. *)
Module Resp.
Record entry : Type := { tag : string; message : string }.
End Resp.

(** One element of [correlations]. *)
Module Corr.
Record entry : Type :=
  { command : string;
    topic : string;
    mqtt_responses : list Msg.entry;
    serial_responses : list Resp.entry }.
End Corr.

Record serial_results : Type :=
  { total_lines : nat;
    errors : list Log.entry;
    warnings : list Log.entry;
    info_messages : list Log.entry;
    esp_logs : DefaultDict.t Log.entry;
    reboots : list string;
    timestamps : list string }.

Record mqtt_results : Type :=
  { total_messages : nat;
    topics : DefaultDict.t Msg.entry;
    commands_sent : list Msg.entry;
    responses_received : list Msg.entry;
    home_assistant_configs : nat;
    status_messages : list Msg.entry }.

(** What [analyze_serial_log] and [analyze_mqtt_log] return: the results, or
    the dictionary [{"error": ...}] when the log file does not exist. *)
Inductive analysis (R : Type) : Type :=
| NotFound (error : string)
| Results (results : R).
Arguments NotFound {R} error.
Arguments Results {R} results.

(** [data.get(key, default)] on such a value. *)
Definition get {R A : Type} (key : R -> A) (default : A) (data : analysis R) : A :=
  match data with
  | NotFound _ => default
  | Results results => key results
  end.

Inductive exn : Type :=
| IndexError.

Inductive result (A : Type) : Type :=
| Ok (a : A)
| Raise (e : exn).
Arguments Ok {A} a.
Arguments Raise {A} e.

Definition bind {A B : Type} (m : result A) (f : A -> result B) : result B :=
  match m with
  | Ok a => f a
  | Raise e => Raise e
  end.

Notation "x <- m ;; f" := (bind m (fun x => f))
  (at level 61, m at next level, right associativity).

(** [l[0]] *)
Definition first {A : Type} (l : list A) : result A :=
  match l with
  | [] => Raise IndexError
  | a :: _ => Ok a
  end.

(** The wall clock: [now k] is what the [k]-th call of
    [datetime.now().isoformat()] of a run returns. *)
Definition clock := nat -> string.

(* ------------------------------------------------------------------ *)
(** ** [LogAnalyzer.analyze_serial_log] *)

(** [results[key] = v], one function per key. *)
Definition set_total_lines (v : nat) (r : serial_results) : serial_results :=
  {| total_lines := v; errors := errors r; warnings := warnings r;
     info_messages := info_messages r; esp_logs := esp_logs r;
     reboots := reboots r; timestamps := timestamps r |}.
Definition set_errors (v : list Log.entry) (r : serial_results) : serial_results :=
  {| total_lines := total_lines r; errors := v; warnings := warnings r;
     info_messages := info_messages r; esp_logs := esp_logs r;
     reboots := reboots r; timestamps := timestamps r |}.
Definition set_warnings (v : list Log.entry) (r : serial_results) : serial_results :=
  {| total_lines := total_lines r; errors := errors r; warnings := v;
     info_messages := info_messages r; esp_logs := esp_logs r;
     reboots := reboots r; timestamps := timestamps r |}.
Definition set_info_messages (v : list Log.entry) (r : serial_results)
  : serial_results :=
  {| total_lines := total_lines r; errors := errors r; warnings := warnings r;
     info_messages := v; esp_logs := esp_logs r;
     reboots := reboots r; timestamps := timestamps r |}.
Definition set_esp_logs (v : DefaultDict.t Log.entry) (r : serial_results)
  : serial_results :=
  {| total_lines := total_lines r; errors := errors r; warnings := warnings r;
     info_messages := info_messages r; esp_logs := v;
     reboots := reboots r; timestamps := timestamps r |}.
Definition set_reboots (v : list string) (r : serial_results) : serial_results :=
  {| total_lines := total_lines r; errors := errors r; warnings := warnings r;
     info_messages := info_messages r; esp_logs := esp_logs r;
     reboots := v; timestamps := timestamps r |}.

Definition serial_empty : serial_results :=
  {| total_lines := 0; errors := []; warnings := []; info_messages := [];
     esp_logs := []; reboots := []; timestamps := [] |}.

(** Lines 40-55: the ESP-IDF log line. *)
Definition serial_log_level (results : serial_results) (line : string)
  : serial_results :=
  match Re.search esp_log_re line with
  | Some [level; timestamp; tag; message] =>
      let entry :=
        {| Log.oid := total_lines results; Log.timestamp := timestamp;
           Log.tag := tag; Log.message := strip message |} in
      let results :=
        if level =? "E" then set_errors (errors results ++ [entry])%list results
        else if level =? "W"
        then set_warnings (warnings results ++ [entry])%list results
        else if level =? "I"
        then set_info_messages (info_messages results ++ [entry])%list results
        else results in
      set_esp_logs (DefaultDict.append tag entry (esp_logs results)) results
  | _ => results
  end.

(** Lines 58-59: the reboot banners. *)
Definition serial_reboot (results : serial_results) (line : string)
  : serial_results :=
  if isin "ESP-ROM:esp32" line || isin "Rebooting..." line
  then set_reboots (reboots results ++ [strip line])%list results
  else results.

(** The body of [for line in f]. *)
Definition serial_line (results : serial_results) (line : string)
  : serial_results :=
  let results := set_total_lines (total_lines results + 1) results in
  let results := serial_log_level results line in
  serial_reboot results line.

Definition analyze_serial_log (serial_log : option (list string))
  : analysis serial_results :=
  match serial_log with
  | None => NotFound "Serial log not found"
  | Some f => Results (fold_left serial_line f serial_empty)
  end.

(* ------------------------------------------------------------------ *)
(** ** [LogAnalyzer.analyze_mqtt_log] *)

Definition set_total_messages (v : nat) (r : mqtt_results) : mqtt_results :=
  {| total_messages := v; topics := topics r; commands_sent := commands_sent r;
     responses_received := responses_received r;
     home_assistant_configs := home_assistant_configs r;
     status_messages := status_messages r |}.
Definition set_topics (v : DefaultDict.t Msg.entry) (r : mqtt_results)
  : mqtt_results :=
  {| total_messages := total_messages r; topics := v;
     commands_sent := commands_sent r;
     responses_received := responses_received r;
     home_assistant_configs := home_assistant_configs r;
     status_messages := status_messages r |}.
Definition set_commands_sent (v : list Msg.entry) (r : mqtt_results)
  : mqtt_results :=
  {| total_messages := total_messages r; topics := topics r;
     commands_sent := v; responses_received := responses_received r;
     home_assistant_configs := home_assistant_configs r;
     status_messages := status_messages r |}.
Definition set_home_assistant_configs (v : nat) (r : mqtt_results)
  : mqtt_results :=
  {| total_messages := total_messages r; topics := topics r;
     commands_sent := commands_sent r;
     responses_received := responses_received r;
     home_assistant_configs := v; status_messages := status_messages r |}.
Definition set_status_messages (v : list Msg.entry) (r : mqtt_results)
  : mqtt_results :=
  {| total_messages := total_messages r; topics := topics r;
     commands_sent := commands_sent r;
     responses_received := responses_received r;
     home_assistant_configs := home_assistant_configs r;
     status_messages := v |}.

Definition mqtt_empty : mqtt_results :=
  {| total_messages := 0; topics := []; commands_sent := [];
     responses_received := []; home_assistant_configs := 0;
     status_messages := [] |}.

(** Lines 95-100: the category of a message, by its topic. *)
Definition categorize (entry : Msg.entry) (results : mqtt_results)
  : mqtt_results :=
  let topic := Msg.topic entry in
  if isin "/command" topic
  then set_commands_sent (commands_sent results ++ [entry])%list results
  else if isin "/status" topic
  then set_status_messages (status_messages results ++ [entry])%list results
  else if isin "homeassistant/" topic
  then set_home_assistant_configs (home_assistant_configs results + 1) results
  else results.

(** The body of [for line in f]; [tick] counts the readings of the clock. *)
Definition mqtt_line (now : clock) (state : nat * mqtt_results) (line : string)
  : nat * mqtt_results :=
  let (tick, results) := state in
  if isin "[MQTT]" line then
    let results := set_total_messages (total_messages results + 1) results in
    match Re.search mqtt_re line with
    | Some [topic; payload] =>
        let entry :=
          {| Msg.topic := topic; Msg.payload := strip payload;
             Msg.timestamp := now tick |} in
        let results :=
          set_topics (DefaultDict.append topic entry (topics results)) results in
        (S tick, categorize entry results)
    | _ => (tick, results)
    end
  else (tick, results).

Definition analyze_mqtt_log (now : clock) (tick : nat)
  (mqtt_log : option (list string)) : nat * analysis mqtt_results :=
  match mqtt_log with
  | None => (tick, NotFound "MQTT log not found")
  | Some f =>
      let (tick', results) := fold_left (mqtt_line now) f (tick, mqtt_empty) in
      (tick', Results results)
  end.

(* ------------------------------------------------------------------ *)
(** ** [LogAnalyzer.correlate_command_responses] *)

(** Lines 119-122: the scan of [status_messages] for one command. *)
Definition mqtt_scan (cmd : Msg.entry) (statuses : list Msg.entry)
  : list Msg.entry :=
  fold_left
    (fun mqtt_responses status =>
       if isin (lower (Msg.payload cmd)) (lower (Msg.payload status))
       then (mqtt_responses ++ [status])%list
       else mqtt_responses)
    statuses [].

(** Lines 126-132: the scan of the tag index for one keyword. *)
Definition serial_scan (cmd_keyword : string) (esp_logs : DefaultDict.t Log.entry)
  : list Resp.entry :=
  fold_left
    (fun serial_responses (item : string * list Log.entry) =>
       let (tag, logs) := item in
       fold_left
         (fun serial_responses log =>
            if isin cmd_keyword (lower (Log.message log))
            then (serial_responses ++
                  [{| Resp.tag := tag; Resp.message := Log.message log |}])%list
            else serial_responses)
         logs serial_responses)
    esp_logs [].

(** The body of [for cmd in mqtt_data.get("commands_sent", [])]. *)
Definition correlate_command (serial_data : analysis serial_results)
  (mqtt_data : analysis mqtt_results) (cmd : Msg.entry) : result Corr.entry :=
  let mqtt_responses := mqtt_scan cmd (get status_messages [] mqtt_data) in
  token <- first (split (Msg.payload cmd)) ;;
  let cmd_keyword := lower token in
  let serial_responses := serial_scan cmd_keyword (get esp_logs [] serial_data) in
  Ok {| Corr.command := Msg.payload cmd;
        Corr.topic := Msg.topic cmd;
        Corr.mqtt_responses := mqtt_responses;
        Corr.serial_responses := serial_responses |}.

(** The loop over the commands, [correlations] being the list built so far. *)
Fixpoint correlate_loop (serial_data : analysis serial_results)
  (mqtt_data : analysis mqtt_results) (cmds : list Msg.entry)
  (correlations : list Corr.entry) : result (list Corr.entry) :=
  match cmds with
  | [] => Ok correlations
  | cmd :: cmds' =>
      correlation <- correlate_command serial_data mqtt_data cmd ;;
      correlate_loop serial_data mqtt_data cmds' (correlations ++ [correlation])%list
  end.

Definition correlate (serial_data : analysis serial_results)
  (mqtt_data : analysis mqtt_results) : result (list Corr.entry) :=
  correlate_loop serial_data mqtt_data (get commands_sent [] mqtt_data) [].

Definition correlate_command_responses (now : clock) (tick : nat)
  (serial_log mqtt_log : option (list string))
  : nat * result (list Corr.entry) :=
  let (tick', mqtt_data) := analyze_mqtt_log now tick mqtt_log in
  let serial_data := analyze_serial_log serial_log in
  (tick', correlate serial_data mqtt_data).

(* ------------------------------------------------------------------ *)
(** ** [LogAnalyzer.generate_report]: the document given to [json.dump] *)

#[warnings="-register-all"]
Inductive json : Type :=
| JInt (n : nat)
| JStr (s : string)
| JList (l : list json)
| JDict (items : list (string * json)).

Definition json_keys (j : json) : list string :=
  match j with
  | JDict items => map fst items
  | _ => []
  end.

Definition json_get (key : string) (j : json) : option json :=
  match j with
  | JDict items =>
      option_map snd (find (fun kv => String.eqb (fst kv) key) items)
  | _ => None
  end.

Definition json_elements (j : json) : list json :=
  match j with
  | JList l => l
  | _ => []
  end.

Definition log_json (e : Log.entry) : json :=
  JDict [("timestamp", JStr (Log.timestamp e)); ("tag", JStr (Log.tag e));
         ("message", JStr (Log.message e))].

Definition msg_json (e : Msg.entry) : json :=
  JDict [("topic", JStr (Msg.topic e)); ("payload", JStr (Msg.payload e));
         ("timestamp", JStr (Msg.timestamp e))].

Definition resp_json (e : Resp.entry) : json :=
  JDict [("tag", JStr (Resp.tag e)); ("message", JStr (Resp.message e))].

Definition dict_json {V : Type} (f : V -> json) (d : DefaultDict.t V) : json :=
  JDict (map (fun kv => (fst kv, JList (map f (snd kv)))) d).

Definition serial_json (data : analysis serial_results) : json :=
  match data with
  | NotFound error => JDict [("error", JStr error)]
  | Results r =>
      JDict [("total_lines", JInt (total_lines r));
             ("errors", JList (map log_json (errors r)));
             ("warnings", JList (map log_json (warnings r)));
             ("info_messages", JList (map log_json (info_messages r)));
             ("esp_logs", dict_json log_json (esp_logs r));
             ("reboots", JList (map JStr (reboots r)));
             ("timestamps", JList (map JStr (timestamps r)))]
  end.

Definition mqtt_json (data : analysis mqtt_results) : json :=
  match data with
  | NotFound error => JDict [("error", JStr error)]
  | Results r =>
      JDict [("total_messages", JInt (total_messages r));
             ("topics", dict_json msg_json (topics r));
             ("commands_sent", JList (map msg_json (commands_sent r)));
             ("responses_received", JList (map msg_json (responses_received r)));
             ("home_assistant_configs", JInt (home_assistant_configs r));
             ("status_messages", JList (map msg_json (status_messages r)))]
  end.

Definition corr_json (c : Corr.entry) : json :=
  JDict [("command", JStr (Corr.command c));
         ("topic", JStr (Corr.topic c));
         ("mqtt_responses", JList (map msg_json (Corr.mqtt_responses c)));
         ("serial_responses", JList (map resp_json (Corr.serial_responses c)))].

(** Lines 181-186: the dictionary that is dumped. *)
Definition report_document (serial_data : analysis serial_results)
  (mqtt_data : analysis mqtt_results) (correlations : list Corr.entry)
  (timestamp : string) : json :=
  JDict [("serial_analysis", serial_json serial_data);
         ("mqtt_analysis", mqtt_json mqtt_data);
         ("correlations", JList (map corr_json correlations));
         ("timestamp", JStr timestamp)].

(** Lines 145, 160 and 170: the three analyses of a run, in the order
    [generate_report] makes them. *)
Definition analysis_run (now : clock) (tick : nat)
  (serial_log mqtt_log : option (list string))
  : nat * (analysis serial_results * analysis mqtt_results
           * result (list Corr.entry)) :=
  let serial_data := analyze_serial_log serial_log in
  let (tick, mqtt_data) := analyze_mqtt_log now tick mqtt_log in
  let (tick, correlations) :=
    correlate_command_responses now tick serial_log mqtt_log in
  (tick, (serial_data, mqtt_data, correlations)).

(** [generate_report] without its printing: the document written to the
    report file.  The clock is read once for the name of the file and once
    for the [timestamp] field.  The file system is outside the model: [Ok doc]
    is the document given to [json.dump] once the report file is open, and a
    failure of [open] at line 180 has no counterpart here. *)
Definition generate_report (now : clock) (tick : nat)
  (serial_log mqtt_log : option (list string)) : nat * result json :=
  let '(tick, (serial_data, mqtt_data, correlations)) :=
    analysis_run now tick serial_log mqtt_log in
  match correlations with
  | Raise e => (tick, Raise e)
  | Ok correlations =>
      let tick := S tick in
      (S tick,
       Ok (report_document serial_data mqtt_data correlations (now tick)))
  end.

(** [l[-n:]] *)
Definition last_n {A : Type} (n : nat) (l : list A) : list A :=
  skipn (length l - n) l.

(** Line 156: [f"      [{err['tag']}] {err['message']}"] *)
Definition recent_error_line (err : Log.entry) : string :=
  "      [" ++ Log.tag err ++ "] " ++ Log.message err.

(** Lines 153-157 of [generate_report]: the lines printed about the recent
    errors.  [serial_data.get('errors')] is false for the dictionary of a
    missing log and for an empty list. *)
Definition print_recent_errors (serial_data : analysis serial_results)
  : list string :=
  match get errors [] serial_data with
  | [] => []
  | _ :: _ =>
      ("   ❌ Recent Errors:"
       :: map recent_error_line (last_n 5 (get errors [] serial_data))
       ++ [""])%list
  end.

(* ------------------------------------------------------------------ *)
(** ** Vocabulary of the statements *)

(** The bus-side test of line 121. *)
Definition responds (cmd status : Msg.entry) : bool :=
  isin (lower (Msg.payload cmd)) (lower (Msg.payload status)).

(** The device-side test of line 128, over the tag index: tag after tag, the
    records whose message, in lower case, contains the keyword. *)
Definition device_matches (cmd_keyword : string)
  (esp_logs : DefaultDict.t Log.entry) : list Resp.entry :=
  flat_map
    (fun item : string * list Log.entry =>
       map (fun log => {| Resp.tag := fst item;
                          Resp.message := Log.message log |})
           (filter (fun log => isin cmd_keyword (lower (Log.message log)))
                   (snd item)))
    esp_logs.

(** The record [e] is one of the objects of the list [errors]: the entry
    dictionaries carry no severity of their own, a record is an error by
    being in that list. *)
Definition is_error (errors : list Log.entry) (e : Log.entry) : bool :=
  existsb (Log.same e) errors.

(** What the serial loop keeps true: the identities handed out so far are
    at most the number of lines read, and the error records of the tag index
    are those of [errors]. *)
Definition serial_inv (r : serial_results) : Prop :=
  Forall (fun e => Log.oid e <= total_lines r)
         (DefaultDict.values (esp_logs r)) /\
  Forall (fun e => Log.oid e <= total_lines r) (errors r) /\
  Permutation (filter (is_error (errors r)) (DefaultDict.values (esp_logs r)))
              (errors r) /\
  forall t,
    filter (is_error (errors r)) (DefaultDict.get t (esp_logs r))
    = filter (fun e => Log.tag e =? t) (errors r).

(** The three categories of lines 95-100, each with the tests that come
    before it in the chain. *)
Definition is_command (e : Msg.entry) : bool :=
  isin "/command" (Msg.topic e).

Definition is_status (e : Msg.entry) : bool :=
  negb (isin "/command" (Msg.topic e)) && isin "/status" (Msg.topic e).

Definition is_config (e : Msg.entry) : bool :=
  negb (isin "/command" (Msg.topic e)) && negb (isin "/status" (Msg.topic e))
  && isin "homeassistant/" (Msg.topic e).

(** What the MQTT loop keeps true: the two category lists and the counter
    against the records of the topic index. *)
Definition mqtt_inv (r : mqtt_results) : Prop :=
  Permutation (commands_sent r)
              (filter is_command (DefaultDict.values (topics r))) /\
  Permutation (status_messages r)
              (filter is_status (DefaultDict.values (topics r))) /\
  home_assistant_configs r
  = length (filter is_config (DefaultDict.values (topics r))).

(** The line is one of the two reboot banners of line 58. *)
Definition is_banner (line : string) : bool :=
  isin "ESP-ROM:esp32" line || isin "Rebooting..." line.

(** A result with the clock readings blanked. *)
Definition erase_msg (e : Msg.entry) : Msg.entry :=
  {| Msg.topic := Msg.topic e; Msg.payload := Msg.payload e;
     Msg.timestamp := "" |}.

Definition erase_dict (d : DefaultDict.t Msg.entry) : DefaultDict.t Msg.entry :=
  map (fun kv => (fst kv, map erase_msg (snd kv))) d.

Definition erase_mqtt (r : mqtt_results) : mqtt_results :=
  {| total_messages := total_messages r;
     topics := erase_dict (topics r);
     commands_sent := map erase_msg (commands_sent r);
     responses_received := map erase_msg (responses_received r);
     home_assistant_configs := home_assistant_configs r;
     status_messages := map erase_msg (status_messages r) |}.

Definition erase_data (data : analysis mqtt_results) : analysis mqtt_results :=
  match data with
  | NotFound error => NotFound error
  | Results r => Results (erase_mqtt r)
  end.

Definition erase_corr (c : Corr.entry) : Corr.entry :=
  {| Corr.command := Corr.command c; Corr.topic := Corr.topic c;
     Corr.mqtt_responses := map erase_msg (Corr.mqtt_responses c);
     Corr.serial_responses := Corr.serial_responses c |}.

Definition erase_correlations (r : result (list Corr.entry))
  : result (list Corr.entry) :=
  match r with
  | Ok correlations => Ok (map erase_corr correlations)
  | Raise e => Raise e
  end.

Definition erase_run
  (run : analysis serial_results * analysis mqtt_results
         * result (list Corr.entry))
  : analysis serial_results * analysis mqtt_results
    * result (list Corr.entry) :=
  let '(serial_data, mqtt_data, correlations) := run in
  (serial_data, erase_data mqtt_data, erase_correlations correlations).

(** The clock that always reads the empty text. *)
Definition blank : clock := fun _ => "".

(** The log pattern matches line number [Log.oid e] of the file [f] (the
    first line has the number 1) with the code [level], and [e] is the
    record made of that line. *)
Definition logged (f : list string) (level : string) (e : Log.entry) : Prop :=
  exists line message,
    1 <= Log.oid e /\ nth_error f (Log.oid e - 1) = Some line /\
    Re.search esp_log_re line
    = Some [level; Log.timestamp e; Log.tag e; message] /\
    Log.message e = strip message.

(** The records of [l] are in the order of their lines. *)
Definition in_file_order (l : list Log.entry) : Prop :=
  StronglySorted lt (map Log.oid l).

(** A dictionary of lists that groups values by [key]: no key twice, no
    empty list, and under each key the values with that key. *)
Definition grouped_by {V : Type} (key : V -> string) (d : DefaultDict.t V)
  : Prop :=
  NoDup (map fst d) /\
  Forall (fun kv => snd kv <> [] /\ Forall (fun v => key v = fst kv) (snd kv)) d.

(** A line of the file [f] carries the marker, and the MQTT pattern cuts
    it into this topic and a text that, stripped, is this payload. *)
Definition published (f : list string) (topic payload : string) : Prop :=
  exists line raw,
    In line f /\ isin "[MQTT]" line = true /\
    Re.search mqtt_re line = Some [topic; raw] /\ payload = strip raw.

(** What holds of the state of the MQTT loop after the lines [done], the
    clock having been read [tick] times before the first of them. *)
Definition mqtt_facts (now : clock) (tick : nat) (done : list string)
  (state : nat * mqtt_results) : Prop :=
  let (tick', r) := state in
  total_messages r = length (filter (isin "[MQTT]") done) /\
  responses_received r = [] /\
  tick' = tick + length (DefaultDict.values (topics r)) /\
  length (DefaultDict.values (topics r)) <= total_messages r /\
  grouped_by Msg.topic (topics r) /\
  (forall e,
      In e (DefaultDict.values (topics r)) ->
      published done (Msg.topic e) (Msg.payload e) /\
      exists k, tick <= k < tick' /\ Msg.timestamp e = now k) /\
  (forall topic payload,
      published done topic payload ->
      exists timestamp,
        In {| Msg.topic := topic; Msg.payload := payload;
              Msg.timestamp := timestamp |}
           (DefaultDict.values (topics r))).

(** The first record of each list of the tag index, in the order of its
    keys. *)
Definition first_records (d : DefaultDict.t Log.entry) : list Log.entry :=
  flat_map (fun kv : string * list Log.entry => firstn 1 (snd kv)) d.

(* ------------------------------------------------------------------ *)
(** * Properties *)

(** ** Strings *)

Section TextFacts.

Lemma append_assoc (a b c : string) : (a ++ b) ++ c = a ++ (b ++ c).
Proof. induction a as [|x a IH]; simpl; [reflexivity | now rewrite IH]. Qed.

Lemma append_empty_r (a : string) : a ++ "" = a.
Proof. induction a as [|x a IH]; simpl; [reflexivity | now rewrite IH]. Qed.

(** The empty string is in every string. *)
Lemma isin_empty (s : string) : isin "" s = true.
Proof. destruct s; reflexivity. Qed.

(** A string of spaces has no token: [split] gives the empty list. *)
Lemma split_from_blank (s : string) :
  all isspace s = true -> split_from None s = [].
Proof.
  induction s as [|c s IH]; simpl; [reflexivity|].
  intros H. apply andb_prop in H. destruct H as [Hc Hs].
  rewrite Hc. now apply IH.
Qed.

Lemma split_blank (s : string) : all isspace s = true -> split s = [].
Proof. apply split_from_blank. Qed.

Lemma lstrip_blank (s : string) : all isspace s = true -> lstrip s = "".
Proof.
  induction s as [|c s IH]; simpl; [reflexivity|].
  intros H. apply andb_prop in H. destruct H as [Hc Hs].
  rewrite Hc. now apply IH.
Qed.

Lemma strip_blank (s : string) : all isspace s = true -> strip s = "".
Proof. intros H. unfold strip. now rewrite lstrip_blank. Qed.

Lemma lstrip_spec (s : string) :
  exists lead, s = lead ++ lstrip s /\ all isspace lead = true.
Proof.
  induction s as [|c s (lead & E & H)]; simpl.
  - now exists "".
  - destruct (isspace c) eqn:Hc.
    + exists (String c lead). simpl. rewrite Hc, H. now rewrite <- E.
    + now exists "".
Qed.

Lemma rstrip_spec (s : string) :
  exists trail, s = rstrip s ++ trail /\ all isspace trail = true.
Proof.
  induction s as [|c s (trail & E & H)]; simpl.
  - now exists "".
  - destruct (rstrip s) as [|d t].
    + simpl in E. subst s. destruct (isspace c) eqn:Hc.
      * exists (String c trail). simpl. now rewrite Hc, H.
      * now exists trail.
    + exists trail. simpl. split; [now rewrite E at 1 | exact H].
Qed.

(** [strip] cuts white space from both ends and nothing else. *)
Lemma strip_spec (s : string) :
  exists lead trail,
    s = lead ++ strip s ++ trail /\
    all isspace lead = true /\ all isspace trail = true.
Proof.
  destruct (lstrip_spec s) as (lead & E1 & H1).
  destruct (rstrip_spec (lstrip s)) as (trail & E2 & H2).
  exists lead, trail. unfold strip. now rewrite <- E2.
Qed.

End TextFacts.

(** ** The regular expressions *)

Section ReFacts.

Lemma greedy_sound (R : Type) (p : ascii -> bool)
  (k : string -> string -> option R) (s : string) :
  forall run r,
    Re.greedy p k run s = Some r ->
    exists more rest,
      s = more ++ rest /\ more <> "" /\ all p more = true /\
      k (run ++ more) rest = Some r.
Proof.
  induction s as [|c s IH]; simpl; intros run r H; [discriminate|].
  destruct (p c) eqn:Hc; [|discriminate].
  destruct (Re.greedy p k (run ++ String c "") s) as [r0|] eqn:Hg.
  - injection H as ->.
    destruct (IH _ _ Hg) as (more & rest & -> & _ & Hall & Hk).
    exists (String c more), rest. simpl. rewrite Hc, Hall.
    repeat split; try discriminate.
    now rewrite append_assoc in Hk.
  - exists (String c ""), s. simpl. rewrite Hc.
    repeat split; try discriminate. exact H.
Qed.

(** A repetition followed by something outside its class takes the whole
    run. *)
Lemma greedy_max (R : Type) (p : ascii -> bool)
  (k : string -> string -> option R) (more rest : string) :
  forall run r,
    more <> "" -> all p more = true -> stops p rest = true ->
    k (run ++ more) rest = Some r ->
    Re.greedy p k run (more ++ rest) = Some r.
Proof.
  induction more as [|c more IH]; intros run r Hne Hall Hstop Hk;
    [congruence|].
  simpl in Hall. apply andb_prop in Hall. destruct Hall as [Hc Hall].
  simpl. rewrite Hc.
  destruct more as [|d more].
  - simpl in *. destruct rest as [|e rest]; simpl.
    + exact Hk.
    + simpl in Hstop. apply negb_true_iff in Hstop. rewrite Hstop. exact Hk.
  - rewrite (IH (run ++ String c "") r); try easy.
    now rewrite append_assoc.
Qed.

Lemma match_at_sound (pat : Re.pattern) :
  forall s groups,
    Re.match_at pat s = Some groups ->
    exists text rest, s = text ++ rest /\ Re.shape pat text groups.
Proof.
  induction pat as [|i pat IH]; simpl; intros s groups H.
  - injection H as <-. exists "", s. split; [reflexivity | constructor].
  - destruct (Re.atom_of i) as [p|p] eqn:Hi.
    + destruct s as [|c s]; [discriminate|].
      destruct (p c) eqn:Hc; [|discriminate].
      destruct (Re.match_at pat s) as [gs|] eqn:Hm; [|discriminate].
      injection H as <-.
      destruct (IH _ _ Hm) as (text & rest & -> & Hs).
      exists (String c text), rest. split; [reflexivity|].
      now apply Re.shape_chr with (p := p).
    + apply greedy_sound in H.
      destruct H as (more & rest & -> & Hne & Hall & Hk).
      destruct (Re.match_at pat rest) as [gs|] eqn:Hm; [|discriminate].
      injection Hk as <-.
      destruct (IH _ _ Hm) as (text & rest' & -> & Hs).
      exists (more ++ text), rest'. split.
      * now rewrite append_assoc.
      * now apply Re.shape_plus with (p := p).
Qed.

(** What [re.search] returns are the groups of an instance of the pattern
    found inside the line. *)
Lemma search_sound (pat : Re.pattern) (s : string) :
  forall groups,
    Re.search pat s = Some groups ->
    exists pre text post,
      s = pre ++ text ++ post /\ Re.shape pat text groups.
Proof.
  induction s as [|c s IH]; simpl; intros groups H.
  - destruct (Re.match_at pat "") eqn:Hm; [|discriminate].
    injection H as <-. apply match_at_sound in Hm.
    destruct Hm as (text & rest & E & Hs).
    exists "", text, rest. now split.
  - destruct (Re.match_at pat (String c s)) eqn:Hm.
    + injection H as <-. apply match_at_sound in Hm.
      destruct Hm as (text & rest & E & Hs).
      exists "", text, rest. now split.
    + destruct (IH _ H) as (pre & text & post & -> & Hs).
      exists (String c pre), text, post. now split.
Qed.

End ReFacts.

Ltac shape_step :=
  match goal with
  | H : Re.shape (_ :: _) _ _ |- _ =>
      inversion H; clear H; subst;
      match goal with
      | E : Re.atom_of _ = _ |- _ =>
          simpl in E; first [discriminate E | injection E as E; subst]
      end
  | H : Re.shape [] _ _ |- _ => inversion H; clear H; subst
  end.

Ltac literal_chars :=
  repeat match goal with
    | H : Ascii.eqb _ _ = true |- _ => apply Ascii.eqb_eq in H; subst
    end.

Section PatternFacts.

Lemma match_at_chr (i : Re.item) (p : ascii -> bool) (pat : Re.pattern)
  (c : ascii) (rest : string) (groups : list string) :
  Re.atom_of i = Re.Chr p -> p c = true ->
  Re.match_at pat rest = Some groups ->
  Re.match_at (i :: pat) (String c rest)
  = Some (Re.keep i (String c "") groups).
Proof. intros Hi Hc Hm. simpl. now rewrite Hi, Hc, Hm. Qed.

Lemma match_at_plus (i : Re.item) (p : ascii -> bool) (pat : Re.pattern)
  (run rest : string) (groups : list string) :
  Re.atom_of i = Re.Plus p ->
  run <> "" -> all p run = true -> stops p rest = true ->
  Re.match_at pat rest = Some groups ->
  Re.match_at (i :: pat) (run ++ rest) = Some (Re.keep i run groups).
Proof.
  intros Hi Hne Hall Hstop Hm. simpl. rewrite Hi.
  apply greedy_max; try assumption.
  simpl. now rewrite Hm.
Qed.

Lemma search_here (pat : Re.pattern) (s : string) (groups : list string) :
  Re.match_at pat s = Some groups -> Re.search pat s = Some groups.
Proof. intros H. destruct s; simpl; now rewrite H. Qed.

(** The instances of the ESP-IDF pattern. *)
Lemma esp_log_shape (text : string) (groups : list string) :
  Re.shape esp_log_re text groups ->
  exists c timestamp tag message,
    groups = [String c ""; timestamp; tag; message] /\
    text = String c "" ++ " (" ++ timestamp ++ ") " ++ tag ++ ": " ++ message /\
    oneof "EWID" c = true /\
    timestamp <> "" /\ all isdigit timestamp = true /\
    tag <> "" /\ all isword tag = true /\
    message <> "" /\ all notnl message = true.
Proof.
  unfold esp_log_re. cbn [app Re.lit]. intros H.
  repeat shape_step. literal_chars.
  exists c, run, run0, run1. cbn [Re.keep append].
  rewrite append_empty_r. now repeat split.
Qed.

(** The instances of the MQTT pattern. *)
Lemma mqtt_shape (text : string) (groups : list string) :
  Re.shape mqtt_re text groups ->
  exists topic payload,
    groups = [topic; payload] /\
    text = "[MQTT] " ++ topic ++ " " ++ payload /\
    topic <> "" /\ all nonspace topic = true /\
    payload <> "" /\ all notnl payload = true.
Proof.
  unfold mqtt_re. cbn [app Re.lit]. intros H.
  repeat shape_step. literal_chars.
  exists run, run0. cbn [Re.keep append].
  rewrite append_empty_r. now repeat split.
Qed.

(** [re.search] on [esp_log_re] gives four groups, cut out of the line. *)
Lemma esp_log_search (line : string) (groups : list string) :
  Re.search esp_log_re line = Some groups ->
  exists pre post c timestamp tag message,
    groups = [String c ""; timestamp; tag; message] /\
    line = pre ++ (String c "" ++ " (" ++ timestamp ++ ") " ++ tag ++ ": "
                   ++ message) ++ post /\
    oneof "EWID" c = true /\
    timestamp <> "" /\ all isdigit timestamp = true /\
    tag <> "" /\ all isword tag = true /\
    message <> "" /\ all notnl message = true.
Proof.
  intros H. apply search_sound in H.
  destruct H as (pre & text & post & -> & Hs).
  apply esp_log_shape in Hs.
  destruct Hs as (c & ts & tg & msg & -> & -> & Hrest).
  now exists pre, post, c, ts, tg, msg.
Qed.

(** [re.search] on [mqtt_re] gives two groups, cut out of the line. *)
Lemma mqtt_search (line : string) (groups : list string) :
  Re.search mqtt_re line = Some groups ->
  exists pre post topic payload,
    groups = [topic; payload] /\
    line = pre ++ ("[MQTT] " ++ topic ++ " " ++ payload) ++ post /\
    topic <> "" /\ all nonspace topic = true /\
    payload <> "" /\ all notnl payload = true.
Proof.
  intros H. apply search_sound in H.
  destruct H as (pre & text & post & -> & Hs).
  apply mqtt_shape in Hs.
  destruct Hs as (topic & payload & -> & -> & Hrest).
  now exists pre, post, topic, payload.
Qed.

(** A line that starts with a structured log record is matched there:
    every repetition takes its whole run. *)
Lemma esp_log_line (c : ascii) (timestamp tag message post : string) :
  oneof "EWID" c = true ->
  timestamp <> "" -> all isdigit timestamp = true ->
  tag <> "" -> all isword tag = true ->
  message <> "" -> all notnl message = true -> stops notnl post = true ->
  Re.search esp_log_re
    (String c "" ++ " (" ++ timestamp ++ ") " ++ tag ++ ": " ++ message ++ post)
  = Some [String c ""; timestamp; tag; message].
Proof.
  intros Hc Ht1 Ht2 Hg1 Hg2 Hm1 Hm2 Hpost.
  apply search_here. unfold esp_log_re. cbn [app Re.lit append].
  repeat match goal with
    | |- Re.match_at (?i :: _) (String _ _) = _ =>
        apply (@match_at_chr i) with (p := match Re.atom_of i with
                                          | Re.Chr p | Re.Plus p => p
                                          end);
        [reflexivity | first [exact Hc | reflexivity] |]
    | |- Re.match_at (?i :: _) (_ ++ _) = _ =>
        apply (@match_at_plus i) with (p := match Re.atom_of i with
                                           | Re.Chr p | Re.Plus p => p
                                           end);
        [reflexivity | assumption | assumption
        | first [exact Hpost | reflexivity] |]
    end.
  reflexivity.
Qed.

End PatternFacts.

(** ** Lists and dictionaries *)

Section ListFacts.
Variables A B : Type.

(** A loop that appends the selected elements is a filter. *)
Lemma fold_left_select (f : A -> bool) (g : A -> B) (l : list A) :
  forall init,
    fold_left (fun acc x => if f x then (acc ++ [g x])%list else acc) l init
    = (init ++ map g (filter f l))%list.
Proof.
  induction l as [|x l IH]; simpl; intros init.
  - now rewrite app_nil_r.
  - rewrite IH. destruct (f x); simpl; [|reflexivity].
    now rewrite <- app_assoc.
Qed.

Lemma Permutation_filter (f : A -> bool) (l l' : list A) :
  Permutation l l' -> Permutation (filter f l) (filter f l').
Proof.
  induction 1 as [|x l l' _ IH|x y l|l l' l'' _ IH1 _ IH2]; simpl.
  - constructor.
  - destruct (f x); [now constructor | assumption].
  - destruct (f x), (f y); try reflexivity. constructor.
  - now transitivity (filter f l').
Qed.

End ListFacts.

Section DictFacts.
Variable V : Type.
Implicit Types (d : DefaultDict.t V) (k : string) (v : V).

Lemma values_append k v d :
  Permutation (DefaultDict.values (DefaultDict.append k v d))
              (DefaultDict.values d ++ [v]).
Proof.
  unfold DefaultDict.values.
  induction d as [|[k' vs] d IH]; simpl; [reflexivity|].
  destruct (String.eqb k' k); simpl.
  - rewrite <- !app_assoc. apply Permutation_app_head.
    apply Permutation_app_comm.
  - rewrite <- app_assoc. now apply Permutation_app_head.
Qed.

Lemma get_append k k' v d :
  DefaultDict.get k' (DefaultDict.append k v d)
  = if String.eqb k k' then (DefaultDict.get k' d ++ [v])%list
    else DefaultDict.get k' d.
Proof.
  induction d as [|[k0 vs] d IH]; simpl.
  - destruct (String.eqb k k'); reflexivity.
  - destruct (String.eqb k0 k) eqn:E0; simpl.
    + apply String.eqb_eq in E0. subst k0.
      destruct (String.eqb k k'); reflexivity.
    + destruct (String.eqb k0 k') eqn:E1.
      * apply String.eqb_eq in E1. subst k0.
        rewrite String.eqb_sym in E0. now rewrite E0.
      * exact IH.
Qed.

Lemma get_in_values k d x :
  In x (DefaultDict.get k d) -> In x (DefaultDict.values d).
Proof.
  unfold DefaultDict.values.
  induction d as [|[k' vs] d IH]; simpl; [easy|].
  destruct (String.eqb k' k); intros H; apply in_or_app;
    [now left | right; now apply IH].
Qed.

End DictFacts.

(** ** The serial loop *)

Section SerialFacts.
Implicit Types (results r : serial_results) (line : string).

Lemma serial_log_level_none r line :
  Re.search esp_log_re line = None -> serial_log_level r line = r.
Proof. intros H. unfold serial_log_level. now rewrite H. Qed.

(** The effect of a matched log line on every key of [results]. *)
Lemma serial_log_level_some r line level timestamp tag message :
  Re.search esp_log_re line = Some [level; timestamp; tag; message] ->
  let entry :=
    {| Log.oid := total_lines r; Log.timestamp := timestamp; Log.tag := tag;
       Log.message := strip message |} in
  let r' := serial_log_level r line in
  total_lines r' = total_lines r /\
  errors r' = (if level =? "E" then errors r ++ [entry] else errors r)%list /\
  warnings r' = (if level =? "W" then warnings r ++ [entry] else warnings r)%list /\
  info_messages r'
  = (if level =? "I" then info_messages r ++ [entry] else info_messages r)%list /\
  esp_logs r' = DefaultDict.append tag entry (esp_logs r) /\
  reboots r' = reboots r.
Proof.
  intros H. unfold serial_log_level. rewrite H. cbv zeta.
  destruct (String.eqb_spec level "E") as [->|_]; [now cbn|].
  destruct (String.eqb_spec level "W") as [->|_]; [now cbn|].
  destruct (String.eqb_spec level "I") as [->|_]; now cbn.
Qed.

(** A line either does not match, or matches with four groups. *)
Lemma esp_log_search_cases line :
  Re.search esp_log_re line = None \/
  exists level timestamp tag message,
    Re.search esp_log_re line = Some [level; timestamp; tag; message].
Proof.
  destruct (Re.search esp_log_re line) as [groups|] eqn:H; [right | now left].
  destruct (esp_log_search _ H) as (_ & _ & c & ts & tg & msg & -> & _).
  now exists (String c ""), ts, tg, msg.
Qed.

Lemma serial_reboot_spec r line :
  let r' := serial_reboot r line in
  total_lines r' = total_lines r /\ errors r' = errors r /\
  warnings r' = warnings r /\ info_messages r' = info_messages r /\
  esp_logs r' = esp_logs r /\
  reboots r'
  = (if is_banner line then reboots r ++ [strip line] else reboots r)%list.
Proof.
  unfold serial_reboot, is_banner.
  destruct (isin "ESP-ROM:esp32" line || isin "Rebooting..." line); now cbn.
Qed.

End SerialFacts.

(* ------------------------------------------------------------------ *)
(** * The device stream *)

Section Classifier.
Implicit Types (results : serial_results) (line : string).

Lemma oneof_EWID (c : ascii) :
  oneof "EWID" c = true -> In (String c "") ["E"; "W"; "I"; "D"].
Proof.
  simpl. intros H.
  repeat (apply orb_prop in H; destruct H as [H|H];
          [apply Ascii.eqb_eq in H; subst; simpl; tauto|]).
  discriminate.
Qed.

(** The keys of [results] after a line on which the log pattern matched. *)
Lemma serial_line_some results line level timestamp tag message :
  Re.search esp_log_re line = Some [level; timestamp; tag; message] ->
  let entry :=
    {| Log.oid := total_lines results + 1; Log.timestamp := timestamp;
       Log.tag := tag; Log.message := strip message |} in
  let results' := serial_line results line in
  total_lines results' = total_lines results + 1 /\
  errors results'
  = (if level =? "E" then errors results ++ [entry] else errors results)%list /\
  warnings results'
  = (if level =? "W" then warnings results ++ [entry]
     else warnings results)%list /\
  info_messages results'
  = (if level =? "I" then info_messages results ++ [entry]
     else info_messages results)%list /\
  esp_logs results' = DefaultDict.append tag entry (esp_logs results).
Proof.
  intros H. cbv zeta. unfold serial_line.
  destruct (serial_reboot_spec
              (serial_log_level
                 (set_total_lines (total_lines results + 1) results) line)
              line) as (-> & -> & -> & -> & -> & _).
  destruct (serial_log_level_some
              (set_total_lines (total_lines results + 1) results) _ H)
    as (-> & -> & -> & -> & -> & _).
  now cbn.
Qed.

(** The keys of [results] after a line on which it did not. *)
Lemma serial_line_none results line :
  Re.search esp_log_re line = None ->
  let results' := serial_line results line in
  total_lines results' = total_lines results + 1 /\
  errors results' = errors results /\
  warnings results' = warnings results /\
  info_messages results' = info_messages results /\
  esp_logs results' = esp_logs results.
Proof.
  intros H. cbv zeta. unfold serial_line.
  destruct (serial_reboot_spec
              (serial_log_level
                 (set_total_lines (total_lines results + 1) results) line)
              line) as (-> & -> & -> & -> & -> & _).
  rewrite (serial_log_level_none _ _ H). now cbn.
Qed.

Lemma serial_line_reboots results line :
  reboots (serial_line results line)
  = (if is_banner line then reboots results ++ [strip line]
     else reboots results)%list.
Proof.
  unfold serial_line.
  destruct (serial_reboot_spec
              (serial_log_level
                 (set_total_lines (total_lines results + 1) results) line)
              line) as (_ & _ & _ & _ & _ & ->).
  destruct (esp_log_search_cases line) as [H|(l & t & g & m & H)].
  - now rewrite (serial_log_level_none _ _ H).
  - now destruct (serial_log_level_some
                    (set_total_lines (total_lines results + 1) results) _ H)
      as (_ & _ & _ & _ & _ & ->).
Qed.

(** C2, amended.  On every line on which the structured pattern matches,
    the severity code is one of E, W, I, D; the groups are pieces of the
    line, in the layout of the grammar; the record made of them keeps the
    timestamp and the tag as they are and the message with the white space
    at its two ends cut off and nothing else changed; the record is
    appended to [errors], [warnings] or [info_messages] for the code E, W
    or I, to none of the three for the code D, and in every case to the
    list of its tag in [esp_logs]. *)
Theorem structured_line_record results line level timestamp tag message :
  Re.search esp_log_re line = Some [level; timestamp; tag; message] ->
  let entry :=
    {| Log.oid := total_lines results + 1; Log.timestamp := timestamp;
       Log.tag := tag; Log.message := strip message |} in
  let results' := serial_line results line in
  In level ["E"; "W"; "I"; "D"] /\
  (exists pre post,
      line = pre ++ (level ++ " (" ++ timestamp ++ ") " ++ tag ++ ": "
                     ++ message) ++ post) /\
  (exists lead trail,
      message = lead ++ Log.message entry ++ trail /\
      all isspace lead = true /\ all isspace trail = true) /\
  errors results'
  = (if level =? "E" then errors results ++ [entry] else errors results)%list /\
  warnings results'
  = (if level =? "W" then warnings results ++ [entry]
     else warnings results)%list /\
  info_messages results'
  = (if level =? "I" then info_messages results ++ [entry]
     else info_messages results)%list /\
  esp_logs results' = DefaultDict.append tag entry (esp_logs results).
Proof.
  intros H. cbv zeta.
  destruct (esp_log_search _ H)
    as (pre & post & c & ts & tg & msg & E & Hline & Hc & _).
  injection E as -> -> -> ->.
  split; [now apply oneof_EWID|].
  split; [now exists pre, post|].
  split; [apply strip_spec|].
  now destruct (serial_line_some results _ H) as (_ & -> & -> & -> & ->).
Qed.

(** The record of an error line, from the theorem. *)
Lemma structured_line_record_witness :
  errors (serial_line serial_empty ("E (1234) wifi: connection lost" ++ LF))
  = [{| Log.oid := 1; Log.timestamp := "1234"; Log.tag := "wifi";
        Log.message := "connection lost" |}].
Proof.
  pose proof (@structured_line_record serial_empty
                ("E (1234) wifi: connection lost" ++ LF)
                "E" "1234" "wifi" "connection lost" eq_refl) as H.
  cbv zeta in H. destruct H as (_ & _ & _ & H & _). exact H.
Defined.

(** C2 as stated fails.  A line with the code D matches the pattern and
    its record enters the tag index, with none of the three severities; and
    the message of a record is not the matched text when that text ends in
    white space. *)
Lemma debug_line_is_indexed :
  let d := serial_line serial_empty ("D (7) app: started" ++ LF) in
  let w := serial_line serial_empty ("W (9) wifi: weak signal  " ++ LF) in
  (Re.search esp_log_re ("D (7) app: started" ++ LF)
   = Some ["D"; "7"; "app"; "started"] /\
   esp_logs d
   = [("app", [{| Log.oid := 1; Log.timestamp := "7"; Log.tag := "app";
                  Log.message := "started" |}])] /\
   errors d = [] /\ warnings d = [] /\ info_messages d = []) /\
  (Re.search esp_log_re ("W (9) wifi: weak signal  " ++ LF)
   = Some ["W"; "9"; "wifi"; "weak signal  "] /\
   map Log.message (warnings w) = ["weak signal"]).
Proof. vm_compute. repeat split. Qed.

(** C3, amended.  The reboot test is made on every line, whether or not
    the line matched the structured pattern: the line, stripped, is
    appended to [reboots] exactly when it contains one of the two banners.
    A line on which the structured pattern does not match (a banner or
    not) adds nothing to the three severity lists and nothing to the tag
    index. *)
Theorem reboot_banner results line :
  let results' := serial_line results line in
  reboots results'
  = (if is_banner line then reboots results ++ [strip line]
     else reboots results)%list /\
  (Re.search esp_log_re line = None ->
   errors results' = errors results /\
   warnings results' = warnings results /\
   info_messages results' = info_messages results /\
   esp_logs results' = esp_logs results).
Proof.
  cbv zeta. split; [apply serial_line_reboots|].
  intros H. now destruct (serial_line_none results _ H) as (_ & ? & ? & ? & ?).
Qed.

(** The ROM banner of a reset, from the theorem. *)
Lemma reboot_banner_witness :
  let results' := serial_line serial_empty ("ESP-ROM:esp32s3-20210327" ++ LF) in
  reboots results' = ["ESP-ROM:esp32s3-20210327"] /\
  errors results' = [] /\ warnings results' = [] /\
  info_messages results' = [] /\ esp_logs results' = [].
Proof.
  cbv zeta.
  destruct (reboot_banner serial_empty ("ESP-ROM:esp32s3-20210327" ++ LF))
    as (H1 & H2).
  split; [exact H1 | exact (H2 eq_refl)].
Defined.

(** C3 as stated fails.  On this line the structured pattern matches, the
    banner is recognised all the same, and the line adds a record to
    [errors] and to the tag index. *)
Lemma banner_in_a_log_line :
  let line := "E (12) boot: Rebooting..." ++ LF in
  let results' := serial_line serial_empty line in
  let entry := {| Log.oid := 1; Log.timestamp := "12"; Log.tag := "boot";
                  Log.message := "Rebooting..." |} in
  Re.search esp_log_re line = Some ["E"; "12"; "boot"; "Rebooting..."] /\
  reboots results' = ["E (12) boot: Rebooting..."] /\
  errors results' = [entry] /\
  esp_logs results' = [("boot", [entry])].
Proof. vm_compute. repeat split. Qed.

End Classifier.

Section Aggregator.
Implicit Types (r : serial_results) (e x : Log.entry).

Lemma is_error_app errs x e :
  is_error (errs ++ [x]) e = is_error errs e || Log.same e x.
Proof. unfold is_error. rewrite existsb_app. simpl. now rewrite orb_false_r. Qed.

Lemma same_refl e : Log.same e e = true.
Proof. apply Nat.eqb_refl. Qed.

Lemma same_fresh n e x :
  Log.oid e <= n -> Log.oid x = n + 1 -> Log.same e x = false.
Proof. intros H E. unfold Log.same. apply Nat.eqb_neq. lia. Qed.

(** A record made on a later line is not one of the earlier errors. *)
Lemma is_error_fresh n errs x :
  Forall (fun e => Log.oid e <= n) errs -> Log.oid x = n + 1 ->
  is_error errs x = false.
Proof.
  intros H E. unfold is_error.
  induction H as [|e errs He _ IH]; simpl; [reflexivity|].
  rewrite IH, orb_false_r. unfold Log.same. apply Nat.eqb_neq. lia.
Qed.

(** Appending a new record to [errors] leaves the old ones as they were. *)
Lemma filter_is_error_fresh n errs x (l : list Log.entry) :
  Forall (fun e => Log.oid e <= n) l -> Log.oid x = n + 1 ->
  filter (is_error (errs ++ [x])) l = filter (is_error errs) l.
Proof.
  intros H E. apply filter_ext_in. intros e He.
  rewrite is_error_app. rewrite Forall_forall in H.
  now rewrite (same_fresh e x (H e He) E), orb_false_r.
Qed.

Lemma Forall_oid_le n m (l : list Log.entry) :
  n <= m -> Forall (fun e => Log.oid e <= n) l ->
  Forall (fun e => Log.oid e <= m) l.
Proof. intros H. apply Forall_impl. intros e He. lia. Qed.

Lemma serial_inv_empty : serial_inv serial_empty.
Proof. repeat split; simpl; constructor. Qed.

Lemma serial_inv_line r line : serial_inv r -> serial_inv (serial_line r line).
Proof.
  intros (Hlogs & Herrs & Hperm & Htag). unfold serial_inv.
  destruct (esp_log_search_cases line) as [H|(level & ts & tg & msg & H)].
  - destruct (serial_line_none r _ H) as (-> & -> & _ & _ & ->).
    repeat split; try assumption;
      eapply Forall_oid_le; try eassumption; lia.
  - destruct (serial_line_some r _ H) as (-> & -> & _ & _ & ->).
    set (x := {| Log.oid := total_lines r + 1; Log.timestamp := ts;
                 Log.tag := tg; Log.message := strip msg |}).
    assert (Hx : Log.oid x = total_lines r + 1) by reflexivity.
    assert (Hlogs' : Forall (fun e => Log.oid e <= total_lines r + 1)
                       (DefaultDict.values (DefaultDict.append tg x (esp_logs r)))).
    { eapply Permutation_Forall;
        [symmetry; apply (values_append tg x (esp_logs r))|].
      apply Forall_app. split.
      - eapply Forall_oid_le; try eassumption; lia.
      - constructor; [simpl; lia | constructor]. }
    assert (Hget : forall t, Forall (fun e => Log.oid e <= total_lines r)
                               (DefaultDict.get t (esp_logs r))).
    { intros t. rewrite Forall_forall in *. intros e He.
      apply Hlogs. eapply get_in_values, He. }
    destruct (level =? "E").
    + (* a new error *)
      split; [assumption|]. split.
      { apply Forall_app. split.
        - eapply Forall_oid_le; try eassumption; lia.
        - constructor; [simpl; lia | constructor]. }
      split.
      { rewrite (Permutation_filter _ (values_append tg x (esp_logs r))).
        rewrite filter_app. simpl.
        rewrite is_error_app, same_refl, orb_true_r.
        rewrite (filter_is_error_fresh _ x Hlogs Hx).
        now apply Permutation_app_tail. }
      intros t. rewrite get_append, filter_app. simpl.
      destruct (String.eqb tg t).
      * rewrite filter_app. simpl.
        rewrite is_error_app, same_refl, orb_true_r.
        rewrite (filter_is_error_fresh _ x (Hget t) Hx).
        now rewrite Htag.
      * rewrite (filter_is_error_fresh _ x (Hget t) Hx).
        now rewrite Htag, app_nil_r.
    + (* a record of another severity *)
      split; [assumption|]. split.
      { eapply Forall_oid_le; try eassumption; lia. }
      split.
      { rewrite (Permutation_filter _ (values_append tg x (esp_logs r))).
        rewrite filter_app. simpl.
        rewrite (is_error_fresh x Herrs Hx). now rewrite app_nil_r. }
      intros t. rewrite get_append.
      destruct (String.eqb tg t); [|apply Htag].
      rewrite filter_app. simpl.
      rewrite (is_error_fresh x Herrs Hx). now rewrite app_nil_r.
Qed.

Lemma serial_inv_fold (f : list string) :
  forall r, serial_inv r -> serial_inv (fold_left serial_line f r).
Proof.
  induction f as [|line f IH]; simpl; intros r H; [exact H|].
  now apply IH, serial_inv_line.
Qed.

(** C8 as stated fails.  With the errors of two tags interleaved, the
    errors of the tag index, tag after tag, come in another order than the
    [errors] list. *)
Lemma errors_by_tag_reordered :
  let data :=
    analyze_serial_log
      (Some ["E (10) wifi: first" ++ LF; "E (20) mqtt: second" ++ LF;
             "E (30) wifi: third" ++ LF]) in
  let errs := get errors [] data in
  let logs := get esp_logs [] data in
  map Log.message errs = ["first"; "second"; "third"] /\
  map Log.message (filter (is_error errs) (DefaultDict.values logs))
  = ["first"; "third"; "second"] /\
  filter (is_error errs) (DefaultDict.values logs) <> errs.
Proof. vm_compute. repeat split. discriminate. Qed.

End Aggregator.

(* ------------------------------------------------------------------ *)
(** * The bus stream *)

Section Extractor.
Implicit Types (r : mqtt_results) (e : Msg.entry) (line : string).

Lemma mqtt_search_cases line :
  Re.search mqtt_re line = None \/
  exists topic payload, Re.search mqtt_re line = Some [topic; payload].
Proof.
  destruct (Re.search mqtt_re line) as [groups|] eqn:H; [right | now left].
  destruct (mqtt_search _ H) as (_ & _ & topic & payload & -> & _).
  now exists topic, payload.
Qed.

(** The three ways a line goes through the loop body. *)
Lemma mqtt_line_cases (now : clock) (tick : nat) r line :
  mqtt_line now (tick, r) line = (tick, r) \/
  mqtt_line now (tick, r) line
  = (tick, set_total_messages (total_messages r + 1) r) \/
  exists topic payload,
    Re.search mqtt_re line = Some [topic; payload] /\
    let entry := {| Msg.topic := topic; Msg.payload := strip payload;
                    Msg.timestamp := now tick |} in
    mqtt_line now (tick, r) line
    = (S tick,
       categorize entry
         (set_topics (DefaultDict.append topic entry (topics r))
            (set_total_messages (total_messages r + 1) r))).
Proof.
  unfold mqtt_line. destruct (isin "[MQTT]" line); [|now left].
  right.
  destruct (mqtt_search_cases line) as [H|(topic & payload & H)]; rewrite H.
  - now left.
  - right. now exists topic, payload.
Qed.

(** The keys of [results] after [categorize]. *)
Lemma categorize_spec e r :
  let r' := categorize e r in
  total_messages r' = total_messages r /\ topics r' = topics r /\
  commands_sent r'
  = (commands_sent r ++ if is_command e then [e] else [])%list /\
  status_messages r'
  = (status_messages r ++ if is_status e then [e] else [])%list /\
  home_assistant_configs r'
  = home_assistant_configs r + (if is_config e then 1 else 0).
Proof.
  unfold categorize, is_command, is_status, is_config.
  destruct (isin "/command" (Msg.topic e)); cbn;
    [now rewrite !app_nil_r, Nat.add_0_r|].
  destruct (isin "/status" (Msg.topic e)); cbn;
    [now rewrite !app_nil_r, Nat.add_0_r|].
  destruct (isin "homeassistant/" (Msg.topic e)); cbn;
    now rewrite !app_nil_r, ?Nat.add_0_r.
Qed.

Lemma filter_snoc (A : Type) (p : A -> bool) (l : list A) (a : A) :
  filter p (l ++ [a]) = (filter p l ++ if p a then [a] else [])%list.
Proof. rewrite filter_app. simpl. now destruct (p a). Qed.

Lemma mqtt_inv_empty : mqtt_inv mqtt_empty.
Proof. repeat split; simpl; constructor. Qed.

Lemma mqtt_inv_line (now : clock) (tick : nat) r line :
  mqtt_inv r -> mqtt_inv (snd (mqtt_line now (tick, r) line)).
Proof.
  intros (Hc & Hs & Hn).
  destruct (mqtt_line_cases now tick r line)
    as [-> | [-> | (topic & payload & _ & ->)]];
    [now repeat split | now repeat split |].
  cbv zeta.
  set (e := {| Msg.topic := topic; Msg.payload := strip payload;
               Msg.timestamp := now tick |}).
  unfold mqtt_inv, snd.
  destruct (categorize_spec e
              (set_topics (DefaultDict.append topic e (topics r))
                 (set_total_messages (total_messages r + 1) r)))
    as (_ & -> & -> & -> & ->).
  cbn [set_topics set_total_messages topics commands_sent status_messages
       home_assistant_configs].
  pose proof (values_append topic e (topics r)) as Hv.
  repeat split.
  - rewrite (Permutation_filter is_command Hv), filter_snoc.
    now apply Permutation_app_tail.
  - rewrite (Permutation_filter is_status Hv), filter_snoc.
    now apply Permutation_app_tail.
  - rewrite (Permutation_length (Permutation_filter is_config Hv)), filter_snoc.
    rewrite length_app, Hn. now destruct (is_config e).
Qed.

Lemma mqtt_inv_fold (now : clock) (f : list string) :
  forall tick r,
    mqtt_inv r -> mqtt_inv (snd (fold_left (mqtt_line now) f (tick, r))).
Proof.
  induction f as [|line f IH]; cbn [fold_left]; intros tick r H; [exact H|].
  pose proof (mqtt_inv_line now tick line H) as H'.
  destruct (mqtt_line now (tick, r) line) as [tick' r']. now apply IH.
Qed.

(** Three tests no two of which hold together select at most the whole
    list. *)
Lemma disjoint_filters (A : Type) (p q s : A -> bool) (l : list A) :
  (forall a, p a && q a = false) -> (forall a, p a && s a = false) ->
  (forall a, q a && s a = false) ->
  length (filter p l) + length (filter q l) + length (filter s l) <= length l.
Proof.
  intros Hpq Hps Hqs. induction l as [|a l IH]; simpl; [lia|].
  specialize (Hpq a). specialize (Hps a). specialize (Hqs a).
  destruct (p a), (q a), (s a); simpl in *; try discriminate; lia.
Qed.

Lemma analyze_mqtt_log_inv (now : clock) (tick : nat)
  (mqtt_log : option (list string)) :
  let data := snd (analyze_mqtt_log now tick mqtt_log) in
  Permutation (get commands_sent [] data)
              (filter is_command (DefaultDict.values (get topics [] data))) /\
  Permutation (get status_messages [] data)
              (filter is_status (DefaultDict.values (get topics [] data))) /\
  get home_assistant_configs 0 data
  = length (filter is_config (DefaultDict.values (get topics [] data))).
Proof.
  destruct mqtt_log as [f|]; cbn; [|now repeat split].
  pose proof (mqtt_inv_fold now f tick mqtt_inv_empty) as H.
  now destruct (fold_left (mqtt_line now) f (tick, mqtt_empty)).
Qed.

(** C10.  The records of the topic index are all the parsed records.  The
    list [commands_sent] holds exactly those whose topic contains
    [/command]; [status_messages] exactly those whose topic contains
    [/status] and not [/command]; the counter counts those whose topic
    contains [homeassistant/] and neither of the two.  No record is in two
    categories, and a record whose topic contains [/command] is a command and
    not a status message, whatever else its topic contains. *)
Theorem bus_categories (now : clock) (tick : nat)
  (mqtt_log : option (list string)) :
  let data := snd (analyze_mqtt_log now tick mqtt_log) in
  let parsed := DefaultDict.values (get topics [] data) in
  let commands := get commands_sent [] data in
  let statuses := get status_messages [] data in
  let configs := get home_assistant_configs 0 data in
  Permutation commands (filter is_command parsed) /\
  Permutation statuses (filter is_status parsed) /\
  configs = length (filter is_config parsed) /\
  length commands + length statuses + configs <= length parsed /\
  forall e,
    In e parsed -> isin "/command" (Msg.topic e) = true ->
    In e commands /\ ~ In e statuses.
Proof.
  cbv zeta.
  destruct (analyze_mqtt_log_inv now tick mqtt_log) as (Hc & Hs & Hn).
  split; [exact Hc|]. split; [exact Hs|]. split; [exact Hn|]. split.
  - rewrite (Permutation_length Hc), (Permutation_length Hs), Hn.
    apply disjoint_filters; intros a; unfold is_command, is_status, is_config;
      destruct (isin "/command" (Msg.topic a)),
               (isin "/status" (Msg.topic a)),
               (isin "homeassistant/" (Msg.topic a)); reflexivity.
  - intros e Hparsed Hcommand. split.
    + apply (Permutation_in _ (Permutation_sym Hc)).
      apply filter_In. now split.
    + intros Hin. apply (Permutation_in _ Hs) in Hin.
      apply filter_In in Hin. destruct Hin as (_ & Hin).
      unfold is_status in Hin. rewrite Hcommand in Hin. discriminate.
Qed.

End Extractor.

(* ------------------------------------------------------------------ *)
(** * The correlator *)

Section Correlator.
Implicit Types (cmd status : Msg.entry) (cmds statuses : list Msg.entry).
Implicit Types (serial_data : analysis serial_results).
Implicit Types (mqtt_data : analysis mqtt_results).

(** Lines 120-122 select the status messages that answer the command. *)
Lemma mqtt_scan_filter cmd statuses :
  mqtt_scan cmd statuses = filter (responds cmd) statuses.
Proof.
  pose proof (fold_left_select (responds cmd) (fun status => status)
                statuses []) as H.
  rewrite map_id in H. exact H.
Qed.

(** Lines 126-132, tag after tag. *)
Lemma serial_scan_from (cmd_keyword : string) (logs : DefaultDict.t Log.entry) :
  forall init,
    fold_left
      (fun serial_responses (item : string * list Log.entry) =>
         let (tag, logs) := item in
         fold_left
           (fun serial_responses log =>
              if isin cmd_keyword (lower (Log.message log))
              then (serial_responses ++
                    [{| Resp.tag := tag; Resp.message := Log.message log |}])%list
              else serial_responses)
           logs serial_responses)
      logs init
    = (init ++
       flat_map
         (fun item : string * list Log.entry =>
            map (fun log => {| Resp.tag := fst item;
                               Resp.message := Log.message log |})
                (filter (fun log => isin cmd_keyword (lower (Log.message log)))
                        (snd item)))
         logs)%list.
Proof.
  induction logs as [|[tag ls] logs IH]; intros init; cbn [fold_left flat_map].
  - now rewrite app_nil_r.
  - rewrite IH.
    rewrite (fold_left_select
               (fun log => isin cmd_keyword (lower (Log.message log)))
               (fun log => {| Resp.tag := tag; Resp.message := Log.message log |})).
    cbn [fst snd]. now rewrite <- app_assoc.
Qed.

Lemma serial_scan_spec (cmd_keyword : string) (logs : DefaultDict.t Log.entry) :
  serial_scan cmd_keyword logs = device_matches cmd_keyword logs.
Proof. unfold serial_scan, device_matches. now rewrite serial_scan_from. Qed.

(** A payload without a token stops the correlator at line 125. *)
Lemma correlate_command_blank serial_data mqtt_data cmd :
  split (Msg.payload cmd) = [] ->
  correlate_command serial_data mqtt_data cmd = Raise IndexError.
Proof. intros H. unfold correlate_command. now rewrite H. Qed.

(** With a token, the correlation of the command is made. *)
Lemma correlate_command_token serial_data mqtt_data cmd token rest :
  split (Msg.payload cmd) = token :: rest ->
  correlate_command serial_data mqtt_data cmd
  = Ok {| Corr.command := Msg.payload cmd;
          Corr.topic := Msg.topic cmd;
          Corr.mqtt_responses :=
            filter (responds cmd) (get status_messages [] mqtt_data);
          Corr.serial_responses :=
            device_matches (lower token) (get esp_logs [] serial_data) |}.
Proof.
  intros H. unfold correlate_command. rewrite H. cbn.
  now rewrite mqtt_scan_filter, serial_scan_spec.
Qed.

Lemma correlate_loop_ok serial_data mqtt_data cmds :
  forall acc correlations,
    correlate_loop serial_data mqtt_data cmds acc = Ok correlations ->
    exists made,
      correlations = (acc ++ made)%list /\
      Forall2 (fun cmd c => correlate_command serial_data mqtt_data cmd = Ok c)
              cmds made.
Proof.
  induction cmds as [|cmd cmds IH]; cbn [correlate_loop]; intros acc cs H.
  - injection H as <-. exists []. now rewrite app_nil_r.
  - destruct (correlate_command serial_data mqtt_data cmd) as [c|e] eqn:Hc;
      cbn in H; [|discriminate].
    destruct (IH _ _ H) as (made & -> & Hall).
    exists (c :: made). rewrite <- app_assoc. split; [reflexivity|].
    now constructor.
Qed.

Lemma correlate_loop_total serial_data mqtt_data cmds :
  Forall (fun cmd => split (Msg.payload cmd) <> []) cmds ->
  forall acc,
  exists made,
    correlate_loop serial_data mqtt_data cmds acc = Ok (acc ++ made)%list /\
    Forall2 (fun cmd c => correlate_command serial_data mqtt_data cmd = Ok c)
            cmds made.
Proof.
  induction 1 as [|cmd cmds Hcmd _ IH]; intros acc; cbn [correlate_loop].
  - exists []. now rewrite app_nil_r.
  - destruct (split (Msg.payload cmd)) as [|token rest] eqn:Hs; [easy|].
    rewrite (correlate_command_token serial_data mqtt_data _ Hs). cbn [bind].
    match goal with
    | |- context [correlate_loop _ _ _ (acc ++ [?c])%list] =>
        destruct (IH (acc ++ [c])%list) as (made & -> & Hall);
        exists (c :: made)
    end.
    rewrite <- app_assoc. split; [reflexivity|].
    constructor; [|exact Hall].
    apply (correlate_command_token serial_data mqtt_data _ Hs).
Qed.

Lemma correlate_loop_raise serial_data mqtt_data cmds :
  Exists (fun cmd => split (Msg.payload cmd) = []) cmds ->
  forall acc, correlate_loop serial_data mqtt_data cmds acc = Raise IndexError.
Proof.
  induction cmds as [|cmd cmds IH]; intros H acc; cbn [correlate_loop].
  - inversion H.
  - destruct (split (Msg.payload cmd)) as [|token rest] eqn:Hs.
    + now rewrite (correlate_command_blank serial_data mqtt_data _ Hs).
    + rewrite (correlate_command_token serial_data mqtt_data _ Hs). cbn [bind].
      apply IH. inversion H; subst; [congruence | assumption].
Qed.

(** The scan of lines 119-122 selects the status messages whose payload,
    in lower case, contains the payload of the command, in lower case; where
    the correlator returns a list, the bus-side responses of each command
    are the result of that scan. *)
Lemma bus_side_scan serial_data mqtt_data :
  let statuses := get status_messages [] mqtt_data in
  (forall cmd, mqtt_scan cmd statuses = filter (responds cmd) statuses) /\
  (forall cmd status,
      In status (mqtt_scan cmd statuses) <->
      In status statuses /\
      isin (lower (Msg.payload cmd)) (lower (Msg.payload status)) = true) /\
  (forall correlations,
      correlate serial_data mqtt_data = Ok correlations ->
      Forall2 (fun cmd c => Corr.mqtt_responses c = mqtt_scan cmd statuses)
              (get commands_sent [] mqtt_data) correlations).
Proof.
  cbv zeta. split; [intros cmd; apply mqtt_scan_filter|]. split.
  - intros cmd status. rewrite mqtt_scan_filter. apply filter_In.
  - intros correlations H. unfold correlate in H.
    apply correlate_loop_ok in H. destruct H as (made & -> & Hall).
    cbn [app]. induction Hall as [|cmd c cmds cs Hc _ IH]; constructor.
    + unfold correlate_command in Hc.
      destruct (first (split (Msg.payload cmd))); cbn in Hc; [|discriminate].
      now injection Hc as <-.
    + exact IH.
Qed.

End Correlator.

Section BlankPayload.

(** A payload of white space only has no token. *)
Lemma blank_payload_no_token (payload : string) :
  all isspace payload = true -> split payload = [].
Proof. apply split_blank. Qed.

(** C1: what the code does instead.  For a command whose payload is empty
    or white space only, [payload.split()] is the empty list and its element
    0 does not exist: the correlator raises [IndexError] at line 125, no
    keyword is derived and no device record is attached.  The bus line
    below, a command topic followed by two spaces, is parsed into a command
    with the empty payload, and the correlation of the two logs ends with
    that exception. *)
Theorem blank_payload_raises :
  (forall serial_data mqtt_data cmd,
      all isspace (Msg.payload cmd) = true ->
      correlate_command serial_data mqtt_data cmd = Raise IndexError) /\
  (forall (now : clock) (tick : nat),
      let serial_log := Some ["I (100) app: command received" ++ LF] in
      let mqtt_log := Some ["[MQTT] wordclock/command  " ++ LF] in
      get commands_sent [] (snd (analyze_mqtt_log now tick mqtt_log))
      = [{| Msg.topic := "wordclock/command"; Msg.payload := "";
            Msg.timestamp := now tick |}] /\
      snd (correlate_command_responses now tick serial_log mqtt_log)
      = Raise IndexError).
Proof.
  split.
  - intros serial_data mqtt_data cmd H.
    now apply correlate_command_blank, blank_payload_no_token.
  - intros now tick. split; reflexivity.
Qed.

(** C6: what the code does instead.  When one command of the bus log has a
    payload without a token, the correlator raises [IndexError] and returns
    no list at all: not one correlation per command, and none for the
    commands before it either.  Below, the device log is empty and there is
    no status message, so that neither command has a match on any side. *)
Theorem blank_command_no_correlations :
  (forall serial_data mqtt_data,
      Exists (fun cmd => split (Msg.payload cmd) = [])
             (get commands_sent [] mqtt_data) ->
      correlate serial_data mqtt_data = Raise IndexError) /\
  (forall (now : clock) (tick : nat),
      let mqtt_log := Some ["[MQTT] wordclock/command status" ++ LF;
                            "[MQTT] wordclock/command " ++ TAB ++ LF] in
      map Msg.payload
          (get commands_sent [] (snd (analyze_mqtt_log now tick mqtt_log)))
      = ["status"; ""] /\
      get status_messages [] (snd (analyze_mqtt_log now tick mqtt_log)) = [] /\
      snd (correlate_command_responses now tick (Some []) mqtt_log)
      = Raise IndexError).
Proof.
  split.
  - intros serial_data mqtt_data H. now apply correlate_loop_raise.
  - intros now tick. repeat split; reflexivity.
Qed.

(** C7: what the code does instead.  With the serial log missing, the
    serial analysis is the dictionary with the key [error] and the MQTT
    analysis is made; but the correlation of a bus log that holds a command
    without a token still raises [IndexError], and the bus-side response of
    that command, which the scan of lines 119-122 had found, is lost with
    it. *)
Theorem missing_serial_log_blank_command :
  forall (now : clock) (tick : nat),
    let mqtt_log := Some ["[MQTT] wordclock/command  " ++ LF;
                          "[MQTT] wordclock/status ok" ++ LF] in
    let mqtt_data := snd (analyze_mqtt_log now tick mqtt_log) in
    analyze_serial_log None = NotFound "Serial log not found" /\
    map Msg.payload (get commands_sent [] mqtt_data) = [""] /\
    map Msg.payload (get status_messages [] mqtt_data) = ["ok"] /\
    (forall cmd,
        In cmd (get commands_sent [] mqtt_data) ->
        map Msg.payload (mqtt_scan cmd (get status_messages [] mqtt_data))
        = ["ok"]) /\
    snd (correlate_command_responses now tick None mqtt_log) = Raise IndexError.
Proof.
  intros now tick. cbv zeta. repeat split; try reflexivity.
  intros cmd [<-|[]]. reflexivity.
Qed.

Lemma correlate_all_tokens serial_data mqtt_data :
  Forall (fun cmd => split (Msg.payload cmd) <> [])
         (get commands_sent [] mqtt_data) ->
  exists correlations,
    correlate serial_data mqtt_data = Ok correlations /\
    Forall2
      (fun cmd c =>
         Corr.command c = Msg.payload cmd /\
         Corr.topic c = Msg.topic cmd /\
         Corr.mqtt_responses c
         = filter (responds cmd) (get status_messages [] mqtt_data) /\
         exists token rest,
           split (Msg.payload cmd) = token :: rest /\
           Corr.serial_responses c
           = device_matches (lower token) (get esp_logs [] serial_data))
      (get commands_sent [] mqtt_data) correlations.
Proof.
  intros H. unfold correlate.
  destruct (correlate_loop_total serial_data mqtt_data H [])
    as (made & -> & Hall).
  exists made. split; [reflexivity|].
  induction Hall as [|cmd c cmds cs Hc _ IH]; constructor.
  - destruct (split (Msg.payload cmd)) as [|token rest] eqn:Hs.
    + now rewrite (correlate_command_blank serial_data mqtt_data _ Hs) in Hc.
    + rewrite (correlate_command_token serial_data mqtt_data _ Hs) in Hc.
      injection Hc as <-. cbn. repeat split. now exists token, rest.
  - apply IH. now inversion H.
Qed.

(** When every command has a token, the correlator returns one correlation
    per command, in the order of [commands_sent]: the payload and the topic
    of the command, the status messages that answer it, and the device
    records that contain its first token; the two lists are empty when
    nothing matches. *)
Theorem correlate_token_commands serial_data mqtt_data :
  Forall (fun cmd => split (Msg.payload cmd) <> [])
         (get commands_sent [] mqtt_data) ->
  exists correlations,
    correlate serial_data mqtt_data = Ok correlations /\
    Forall2
      (fun cmd c =>
         Corr.command c = Msg.payload cmd /\
         Corr.topic c = Msg.topic cmd /\
         Corr.mqtt_responses c
         = filter (responds cmd) (get status_messages [] mqtt_data) /\
         exists token rest,
           split (Msg.payload cmd) = token :: rest /\
           Corr.serial_responses c
           = device_matches (lower token) (get esp_logs [] serial_data))
      (get commands_sent [] mqtt_data) correlations.
Proof. apply correlate_all_tokens. Qed.

(** A command that nothing answers, from the theorem. *)
Lemma correlate_token_commands_witness :
  exists correlations,
    correlate (Results serial_empty)
      (Results
         (set_commands_sent
            [{| Msg.topic := "wordclock/command"; Msg.payload := "status";
                Msg.timestamp := "" |}] mqtt_empty))
    = Ok correlations /\
    map Corr.mqtt_responses correlations = [[]] /\
    map Corr.serial_responses correlations = [[]].
Proof.
  destruct (@correlate_token_commands (Results serial_empty)
              (Results
                 (set_commands_sent
                    [{| Msg.topic := "wordclock/command";
                        Msg.payload := "status"; Msg.timestamp := "" |}]
                    mqtt_empty)))
    as (correlations & H & Hall).
  - repeat constructor. discriminate.
  - exists correlations. split; [exact H|].
    cbn in H. injection H as <-. split; reflexivity.
Defined.

(** With a log file missing, the analysis of that file is the dictionary
    with the key [error].  Without the MQTT log there is no command and the
    list of correlations is empty; without the serial log, and every command
    having a token, each correlation has its bus-side responses and no
    device-side response. *)
Theorem missing_log serial_data mqtt_data (now : clock) (tick : nat) :
  analyze_serial_log None = NotFound "Serial log not found" /\
  snd (analyze_mqtt_log now tick None) = NotFound "MQTT log not found" /\
  correlate serial_data (NotFound "MQTT log not found") = Ok [] /\
  (Forall (fun cmd => split (Msg.payload cmd) <> [])
          (get commands_sent [] mqtt_data) ->
   exists correlations,
     correlate (NotFound "Serial log not found") mqtt_data = Ok correlations /\
     Forall2
       (fun cmd c =>
          Corr.mqtt_responses c
          = filter (responds cmd) (get status_messages [] mqtt_data) /\
          Corr.serial_responses c = [])
       (get commands_sent [] mqtt_data) correlations).
Proof.
  repeat split.
  intros H.
  destruct (@correlate_all_tokens (NotFound "Serial log not found") mqtt_data H)
    as (correlations & Hc & Hall).
  exists correlations. split; [exact Hc|].
  clear Hc H. induction Hall as [|cmd c cmds cs Hc _ IH]; constructor.
  - destruct Hc as (_ & _ & Hm & token & rest & _ & Hs). now split.
  - exact IH.
Qed.

End BlankPayload.

(* ------------------------------------------------------------------ *)
(** * The clock *)

Section Clock.
Implicit Types (r : mqtt_results) (e : Msg.entry) (line : string).

Lemma erase_append (k : string) e (d : DefaultDict.t Msg.entry) :
  erase_dict (DefaultDict.append k e d)
  = DefaultDict.append k (erase_msg e) (erase_dict d).
Proof.
  unfold erase_dict.
  induction d as [|[k' vs] d IH]; cbn; [reflexivity|].
  destruct (String.eqb k' k); cbn.
  - now rewrite map_app.
  - now rewrite IH.
Qed.

Lemma erase_categorize e r :
  erase_mqtt (categorize e r) = categorize (erase_msg e) (erase_mqtt r).
Proof.
  unfold categorize. cbn [erase_msg Msg.topic].
  destruct (isin "/command" (Msg.topic e));
    [unfold erase_mqtt; cbn; now rewrite map_app|].
  destruct (isin "/status" (Msg.topic e));
    [unfold erase_mqtt; cbn; now rewrite map_app|].
  now destruct (isin "homeassistant/" (Msg.topic e)).
Qed.

(** Blanking the readings after a line is reading the blank clock. *)
Lemma mqtt_line_erase (now : clock) (tick tick' : nat) r line :
  erase_mqtt (snd (mqtt_line now (tick, r) line))
  = snd (mqtt_line blank (tick', erase_mqtt r) line).
Proof.
  unfold mqtt_line. destruct (isin "[MQTT]" line); [|reflexivity].
  destruct (mqtt_search_cases line) as [H|(topic & payload & H)]; rewrite H;
    [reflexivity|].
  cbn [snd]. rewrite erase_categorize. f_equal.
  unfold erase_mqtt. cbn. now rewrite erase_append.
Qed.

Lemma mqtt_fold_erase (now : clock) (f : list string) :
  forall tick tick' r,
    erase_mqtt (snd (fold_left (mqtt_line now) f (tick, r)))
    = snd (fold_left (mqtt_line blank) f (tick', erase_mqtt r)).
Proof.
  induction f as [|line f IH]; cbn [fold_left]; intros tick tick' r;
    [reflexivity|].
  pose proof (mqtt_line_erase now tick tick' r line) as H.
  destruct (mqtt_line now (tick, r) line) as [t1 r1].
  destruct (mqtt_line blank (tick', erase_mqtt r) line) as [t2 r2].
  cbn [snd] in H. subst r2. apply IH.
Qed.

Lemma analyze_mqtt_log_erase (now : clock) (tick : nat)
  (mqtt_log : option (list string)) :
  erase_data (snd (analyze_mqtt_log now tick mqtt_log))
  = snd (analyze_mqtt_log blank 0 mqtt_log).
Proof.
  destruct mqtt_log as [f|]; cbn [analyze_mqtt_log]; [|reflexivity].
  pose proof (mqtt_fold_erase now f tick 0 mqtt_empty) as H.
  destruct (fold_left (mqtt_line now) f (tick, mqtt_empty)) as [t1 r1].
  change (erase_mqtt mqtt_empty) with mqtt_empty in H.
  destruct (fold_left (mqtt_line blank) f (0, mqtt_empty)) as [t2 r2].
  cbn in *. now subst.
Qed.

Lemma responds_erase (cmd status : Msg.entry) :
  responds (erase_msg cmd) (erase_msg status) = responds cmd status.
Proof. reflexivity. Qed.

Lemma filter_responds_erase (cmd : Msg.entry) (statuses : list Msg.entry) :
  map erase_msg (filter (responds cmd) statuses)
  = filter (responds (erase_msg cmd)) (map erase_msg statuses).
Proof.
  induction statuses as [|s statuses IH]; cbn [filter map]; [reflexivity|].
  rewrite responds_erase. destruct (responds cmd s); cbn [map]; now rewrite IH.
Qed.

Lemma get_status_erase (mqtt_data : analysis mqtt_results) :
  get status_messages [] (erase_data mqtt_data)
  = map erase_msg (get status_messages [] mqtt_data).
Proof. now destruct mqtt_data. Qed.

Lemma get_commands_erase (mqtt_data : analysis mqtt_results) :
  get commands_sent [] (erase_data mqtt_data)
  = map erase_msg (get commands_sent [] mqtt_data).
Proof. now destruct mqtt_data. Qed.

Lemma correlate_command_erase (serial_data : analysis serial_results)
  (mqtt_data : analysis mqtt_results) (cmd : Msg.entry) :
  correlate_command serial_data (erase_data mqtt_data) (erase_msg cmd)
  = match correlate_command serial_data mqtt_data cmd with
    | Ok c => Ok (erase_corr c)
    | Raise e => Raise e
    end.
Proof.
  unfold correlate_command. cbn [erase_msg Msg.payload Msg.topic].
  destruct (first (split (Msg.payload cmd))) as [token|e]; cbn [bind];
    [|reflexivity].
  unfold erase_corr. cbn. f_equal. f_equal.
  rewrite !mqtt_scan_filter, get_status_erase.
  symmetry. apply filter_responds_erase.
Qed.

Lemma correlate_loop_erase (serial_data : analysis serial_results)
  (mqtt_data : analysis mqtt_results) (cmds : list Msg.entry) :
  forall acc,
    correlate_loop serial_data (erase_data mqtt_data) (map erase_msg cmds)
                   (map erase_corr acc)
    = erase_correlations (correlate_loop serial_data mqtt_data cmds acc).
Proof.
  induction cmds as [|cmd cmds IH]; intros acc; cbn [correlate_loop map];
    [reflexivity|].
  rewrite correlate_command_erase.
  destruct (correlate_command serial_data mqtt_data cmd) as [c|e]; cbn [bind];
    [|reflexivity].
  rewrite <- IH. now rewrite map_app.
Qed.

Lemma correlate_erase (serial_data : analysis serial_results)
  (mqtt_data : analysis mqtt_results) :
  erase_correlations (correlate serial_data mqtt_data)
  = correlate serial_data (erase_data mqtt_data).
Proof.
  unfold correlate. rewrite get_commands_erase.
  symmetry. apply (correlate_loop_erase serial_data mqtt_data _ []).
Qed.

(** A run with its readings blanked is the run under the blank clock. *)
Lemma analysis_run_erase (now : clock) (tick : nat)
  (serial_log mqtt_log : option (list string)) :
  erase_run (snd (analysis_run now tick serial_log mqtt_log))
  = (analyze_serial_log serial_log,
     snd (analyze_mqtt_log blank 0 mqtt_log),
     correlate (analyze_serial_log serial_log)
               (snd (analyze_mqtt_log blank 0 mqtt_log))).
Proof.
  unfold analysis_run, correlate_command_responses.
  pose proof (analyze_mqtt_log_erase now tick mqtt_log) as H1.
  destruct (analyze_mqtt_log now tick mqtt_log) as [t1 d1].
  pose proof (analyze_mqtt_log_erase now t1 mqtt_log) as H2.
  destruct (analyze_mqtt_log now t1 mqtt_log) as [t2 d2].
  cbn [snd erase_run] in *.
  now rewrite correlate_erase, H1, H2.
Qed.

(** C4, amended.  A run is a function of the two line sequences and of
    the clock: two runs on the same device-stream and bus-stream lines, at
    whatever times, give the same serial analysis, and the same MQTT
    analysis and the same correlations (or the same exception) once the
    [timestamp] of every bus record is blanked. *)
Theorem runs_agree_up_to_timestamps (now1 now2 : clock) (tick1 tick2 : nat)
  (serial_log mqtt_log : option (list string)) :
  erase_run (snd (analysis_run now1 tick1 serial_log mqtt_log))
  = erase_run (snd (analysis_run now2 tick2 serial_log mqtt_log)).
Proof. now rewrite !analysis_run_erase. Qed.

(** C4 as stated fails.  The same two logs analysed at nine in the morning
    and at nine in the evening: the bus records of the two runs differ in
    their [timestamp]. *)
Lemma runs_differ_in_timestamps :
  let morning : clock := fun _ => "2025-01-01T09:00:00" in
  let evening : clock := fun _ => "2025-01-01T21:00:00" in
  let serial_log := Some ["I (100) app: status requested" ++ LF] in
  let mqtt_log := Some ["[MQTT] wordclock/command status" ++ LF;
                        "[MQTT] wordclock/status Status: OK" ++ LF] in
  let run1 := snd (analysis_run morning 0 serial_log mqtt_log) in
  let run2 := snd (analysis_run evening 0 serial_log mqtt_log) in
  map Msg.timestamp (get commands_sent [] (snd (fst run1)))
  = ["2025-01-01T09:00:00"] /\
  map Msg.timestamp (get commands_sent [] (snd (fst run2)))
  = ["2025-01-01T21:00:00"] /\
  snd (fst run1) <> snd (fst run2) /\
  snd run1 <> snd run2.
Proof. vm_compute. repeat split; discriminate. Qed.

End Clock.

(* ------------------------------------------------------------------ *)
(** * The report *)

Section Report.

Lemma report_document_fields (serial_data : analysis serial_results)
  (mqtt_data : analysis mqtt_results) (correlations : list Corr.entry)
  (timestamp : string) :
  let doc := report_document serial_data mqtt_data correlations timestamp in
  json_keys doc = ["serial_analysis"; "mqtt_analysis"; "correlations"; "timestamp"] /\
  json_get "serial_analysis" doc = Some (serial_json serial_data) /\
  json_get "mqtt_analysis" doc = Some (mqtt_json mqtt_data) /\
  json_get "correlations" doc = Some (JList (map corr_json correlations)) /\
  json_get "timestamp" doc = Some (JStr timestamp).
Proof. now repeat split. Qed.

Lemma corr_json_fields (c : Corr.entry) :
  json_keys (corr_json c)
  = ["command"; "topic"; "mqtt_responses"; "serial_responses"] /\
  json_get "command" (corr_json c) = Some (JStr (Corr.command c)) /\
  json_get "topic" (corr_json c) = Some (JStr (Corr.topic c)).
Proof. now repeat split. Qed.

(** C9, amended.  The document that a run writes has the top-level fields
    [serial_analysis], [mqtt_analysis], [correlations] and [timestamp], in
    this order; [correlations] is a list, and each of its elements has the
    fields [command], [topic], [mqtt_responses] and [serial_responses], the
    first two being texts (the payload and the topic of the command). *)
Theorem report_fields (now : clock) (tick tick' : nat)
  (serial_log mqtt_log : option (list string)) (doc : json) :
  generate_report now tick serial_log mqtt_log = (tick', Ok doc) ->
  json_keys doc
  = ["serial_analysis"; "mqtt_analysis"; "correlations"; "timestamp"] /\
  exists correlations,
    json_get "correlations" doc = Some (JList correlations) /\
    Forall
      (fun c =>
         json_keys c = ["command"; "topic"; "mqtt_responses"; "serial_responses"]
         /\ (exists payload, json_get "command" c = Some (JStr payload))
         /\ (exists topic, json_get "topic" c = Some (JStr topic)))
      correlations.
Proof.
  unfold generate_report.
  destruct (analysis_run now tick serial_log mqtt_log)
    as [t [[serial_data mqtt_data] [correlations|e]]]; [|discriminate].
  intros H. injection H as _ <-.
  split; [reflexivity|].
  exists (map corr_json correlations). split; [reflexivity|].
  apply Forall_forall. intros c Hc. apply in_map_iff in Hc.
  destruct Hc as (x & <- & _).
  destruct (corr_json_fields x) as (Hk & Hp & Ht).
  split; [exact Hk|]. split; eexists; eassumption.
Qed.

(** The report of a run with one command, from the theorem. *)
Lemma report_fields_witness :
  exists doc,
    snd (generate_report blank 0
           (Some ["I (100) app: status requested" ++ LF])
           (Some ["[MQTT] wordclock/command status" ++ LF]))
    = Ok doc /\
    json_keys doc
    = ["serial_analysis"; "mqtt_analysis"; "correlations"; "timestamp"].
Proof.
  eexists. split; [reflexivity|].
  exact (proj1 (@report_fields blank 0 _
                  (Some ["I (100) app: status requested" ++ LF])
                  (Some ["[MQTT] wordclock/command status" ++ LF])
                  _ eq_refl)).
Defined.

(** C9 as stated fails.  The report of a run with one command has none of
    the top-level names [device_summary], [bus_summary], [generated_at], and
    its correlation has neither [bus_responses] nor [device_responses]. *)
Lemma report_fields_differ :
  exists doc correlation,
    snd (generate_report blank 0
           (Some ["I (100) app: status requested" ++ LF])
           (Some ["[MQTT] wordclock/command status" ++ LF]))
    = Ok doc /\
    json_get "correlations" doc = Some (JList [correlation]) /\
    json_keys doc
    <> ["device_summary"; "bus_summary"; "correlations"; "generated_at"] /\
    json_get "device_summary" doc = None /\
    json_get "bus_summary" doc = None /\
    json_get "generated_at" doc = None /\
    json_keys correlation <> ["command"; "bus_responses"; "device_responses"] /\
    json_get "bus_responses" correlation = None /\
    json_get "device_responses" correlation = None.
Proof.
  eexists. eexists. split; [vm_compute; reflexivity|].
  split; [reflexivity|].
  repeat split; try reflexivity; vm_compute; discriminate.
Qed.

End Report.

(* ------------------------------------------------------------------ *)
(** * More on the strings *)

Section StripFacts.

Lemma all_append (p : ascii -> bool) (a b : string) :
  all p (a ++ b) = all p a && all p b.
Proof.
  induction a as [|x a IH]; simpl; [reflexivity|].
  now rewrite IH, andb_assoc.
Qed.

(** What [lstrip] leaves is empty or starts with a character that is not
    white space. *)
Lemma lstrip_head (s : string) :
  lstrip s = "" \/ exists c t, lstrip s = String c t /\ isspace c = false.
Proof.
  induction s as [|c s IH]; simpl; [now left|].
  destruct (isspace c) eqn:Hc; [exact IH|].
  right. now exists c, s.
Qed.

Lemma rstrip_head (c : ascii) (s : string) :
  isspace c = false -> exists t, rstrip (String c s) = String c t.
Proof.
  intros Hc. simpl. destruct (rstrip s) as [|d t].
  - rewrite Hc. now exists "".
  - now exists (String d t).
Qed.

Lemma rstrip_idem (s : string) : rstrip (rstrip s) = rstrip s.
Proof.
  induction s as [|c s IH]; simpl; [reflexivity|].
  destruct (rstrip s) as [|d t] eqn:E.
  - destruct (isspace c) eqn:Hc; simpl; [reflexivity | now rewrite Hc].
  - cbn [rstrip] in IH |- *. fold (rstrip (String d t)) in IH |- *.
    now rewrite IH.
Qed.

Lemma lstrip_nonspace (c : ascii) (s : string) :
  isspace c = false -> lstrip (String c s) = String c s.
Proof. intros Hc. simpl. now rewrite Hc. Qed.

(** Stripping twice is stripping once: a stripped text has no white space
    left at either end. *)
Lemma strip_idem (s : string) : strip (strip s) = strip s.
Proof.
  unfold strip.
  destruct (lstrip_head s) as [-> | (c & t & -> & Hc)]; [reflexivity|].
  destruct (@rstrip_head c t Hc) as (t' & E). rewrite E.
  rewrite (@lstrip_nonspace c t' Hc), <- E. apply rstrip_idem.
Qed.

(** [strip] keeps every class of characters the text was in. *)
Lemma all_strip (p : ascii -> bool) (s : string) :
  all p s = true -> all p (strip s) = true.
Proof.
  destruct (strip_spec s) as (lead & trail & E & _ & _).
  intros H. rewrite E, !all_append in H.
  apply andb_prop in H. destruct H as (_ & H).
  apply andb_prop in H. now destruct H.
Qed.

Lemma split_from_some (t s : string) : split_from (Some t) s <> [].
Proof.
  revert t. induction s as [|c s IH]; intros t; simpl; [discriminate|].
  destruct (isspace c); [discriminate | apply IH].
Qed.

(** [split] finds no token exactly in the texts of white space. *)
Lemma split_nil_iff (s : string) : split s = [] <-> all isspace s = true.
Proof.
  split; [|apply split_blank].
  unfold split. induction s as [|c s IH]; simpl; [reflexivity|].
  destruct (isspace c); [exact IH|].
  intros H. now apply split_from_some in H.
Qed.

(** A stripped text without a token is the empty text. *)
Lemma stripped_no_token (s : string) :
  strip s = s -> split s = [] -> s = "".
Proof.
  intros Hs H. apply split_nil_iff in H. rewrite <- Hs. now apply strip_blank.
Qed.

End StripFacts.

(* ------------------------------------------------------------------ *)
(** * The serial analysis as a whole *)

Section Loops.
Variables (A S : Type) (step : S -> A -> S).

(** A property of the lines read so far and of the state of the loop. *)
Lemma fold_left_prefix (P : list A -> S -> Prop) (init : S) :
  P [] init ->
  (forall done x s, P done s -> P (done ++ [x])%list (step s x)) ->
  forall l, P l (fold_left step l init).
Proof.
  intros H0 Hstep l.
  enough (H : forall rest done s,
             P done s -> P (done ++ rest)%list (fold_left step rest s))
    by exact (H l [] init H0).
  induction rest as [|x rest IH]; intros done s H; cbn [fold_left].
  - now rewrite app_nil_r.
  - replace (done ++ x :: rest)%list with ((done ++ [x]) ++ rest)%list
      by now rewrite <- app_assoc.
    apply IH, Hstep, H.
Qed.

End Loops.

Section SerialRun.
Implicit Types (r : serial_results) (e : Log.entry) (f done : list string).

Lemma timestamps_serial_line r line :
  timestamps (serial_line r line) = timestamps r.
Proof.
  unfold serial_line, serial_reboot.
  assert (H : forall r0, timestamps (serial_log_level r0 line) = timestamps r0).
  { intros r0. unfold serial_log_level.
    destruct (esp_log_search_cases line) as [H|(lv & ts & tg & msg & H)];
      rewrite H; [reflexivity|].
    cbv zeta. destruct (lv =? "E"); [reflexivity|].
    destruct (lv =? "W"); [reflexivity|]. now destruct (lv =? "I"). }
  destruct (isin "ESP-ROM:esp32" line || isin "Rebooting..." line); cbn;
    now rewrite H.
Qed.

Lemma logged_bound f level e :
  logged f level e -> 1 <= Log.oid e <= length f.
Proof.
  intros (line & msg & H1 & Hn & _). split; [exact H1|].
  assert (Log.oid e - 1 < length f) by (apply nth_error_Some; congruence).
  lia.
Qed.

(** The records of a file with one more line. *)
Lemma logged_snoc done line level e :
  logged (done ++ [line]) level e <->
  logged done level e \/
  (Log.oid e = length done + 1 /\
   exists message,
     Re.search esp_log_re line
     = Some [level; Log.timestamp e; Log.tag e; message] /\
     Log.message e = strip message).
Proof.
  unfold logged. split.
  - intros (l & msg & H1 & Hn & Hs & Hm).
    destruct (Nat.lt_ge_cases (Log.oid e - 1) (length done)) as [Hlt|Hge].
    + left. rewrite nth_error_app1 in Hn by exact Hlt. now exists l, msg.
    + right. rewrite nth_error_app2 in Hn by exact Hge.
      destruct (Log.oid e - 1 - length done) as [|k] eqn:Hk;
        [|destruct k; discriminate].
      injection Hn as <-. split; [lia | now exists msg].
  - intros [(l & msg & H1 & Hn & Hs & Hm) | (Hn & msg & Hs & Hm)].
    + exists l, msg. repeat split; try assumption.
      rewrite nth_error_app1; [exact Hn|]. apply nth_error_Some. congruence.
    + exists line, msg. repeat split; try assumption; [lia|].
      rewrite nth_error_app2 by lia.
      now replace (Log.oid e - 1 - length done) with 0 by lia.
Qed.

Lemma logged_snoc_none done line level e :
  Re.search esp_log_re line = None ->
  (logged (done ++ [line]) level e <-> logged done level e).
Proof.
  intros H. rewrite logged_snoc. split; [|now left].
  intros [H'|(_ & msg & Hs & _)]; [exact H' | congruence].
Qed.

Lemma logged_snoc_some done line level e lv ts tg msg :
  Re.search esp_log_re line = Some [lv; ts; tg; msg] ->
  (logged (done ++ [line]) level e <->
   logged done level e \/
   (level = lv /\
    e = {| Log.oid := length done + 1; Log.timestamp := ts; Log.tag := tg;
           Log.message := strip msg |})).
Proof.
  intros H. rewrite logged_snoc. rewrite H.
  split; (intros [H'|H']; [now left | right]).
  - destruct H' as (Hn & m & Hs & Hm). injection Hs as -> Ht Hg ->.
    split; [reflexivity|]. destruct e; cbn in *. congruence.
  - destruct H' as (-> & ->). cbn. split; [reflexivity | now exists msg].
Qed.

Lemma in_file_order_snoc (l : list Log.entry) e :
  in_file_order l -> (forall x, In x l -> Log.oid x < Log.oid e) ->
  in_file_order (l ++ [e]).
Proof.
  unfold in_file_order. induction l as [|a l IH]; cbn; intros Hs Hlt.
  - repeat constructor.
  - apply StronglySorted_inv in Hs. destruct Hs as (Hs & Ha).
    constructor.
    + apply IH; [exact Hs | intros x Hx; apply Hlt; now right].
    + rewrite map_app. apply Forall_app. split; [exact Ha|].
      repeat constructor. apply Hlt. now left.
Qed.

Lemma in_app_singleton (B : Type) (l : list B) (a x : B) (c : bool) :
  In x (if c then l ++ [a] else l)%list <-> In x l \/ (c = true /\ x = a).
Proof.
  destruct c.
  - rewrite in_app_iff. cbn. intuition congruence.
  - intuition congruence.
Qed.

(** What holds of the results after the lines [done]. *)
Definition serial_facts (done : list string) (r : serial_results) : Prop :=
  total_lines r = length done /\
  timestamps r = [] /\
  reboots r = map strip (filter is_banner done) /\
  ((forall e, In e (errors r) <-> logged done "E" e) /\
   (forall e, In e (warnings r) <-> logged done "W" e) /\
   (forall e, In e (info_messages r) <-> logged done "I" e) /\
   (forall t e,
       In e (DefaultDict.get t (esp_logs r)) <->
       Log.tag e = t /\ exists level, logged done level e)) /\
  (in_file_order (errors r) /\ in_file_order (warnings r) /\
   in_file_order (info_messages r) /\
   forall t, in_file_order (DefaultDict.get t (esp_logs r))).

Lemma serial_facts_empty : serial_facts [] serial_empty.
Proof.
  assert (Hno : forall level e, ~ logged [] level e).
  { intros level e (l & m & _ & Hn & _). now destruct (Log.oid e - 1). }
  repeat split; cbn; try constructor; try easy;
    try (intros H; exfalso; eapply Hno; eassumption).
  intros (_ & level & H). exfalso. eapply Hno. eassumption.
Qed.

Lemma in_file_order_if (l : list Log.entry) e (c : bool) :
  in_file_order l -> (forall x, In x l -> Log.oid x < Log.oid e) ->
  in_file_order (if c then l ++ [e] else l)%list.
Proof. destruct c; [apply in_file_order_snoc | easy]. Qed.

(** One severity list over one more line. *)
Lemma severity_list_snoc done line level lv ts tg msg (l : list Log.entry) :
  Re.search esp_log_re line = Some [lv; ts; tg; msg] ->
  (forall e, In e l <-> logged done level e) ->
  forall e,
    In e (if lv =? level
          then l ++ [{| Log.oid := length done + 1; Log.timestamp := ts;
                        Log.tag := tg; Log.message := strip msg |}]
          else l)%list
    <-> logged (done ++ [line]) level e.
Proof.
  intros H Hl e.
  rewrite in_app_singleton, (logged_snoc_some done _ _ _ H), Hl.
  split; (intros [?|(E & ->)]; [now left | right]).
  - apply String.eqb_eq in E. now subst.
  - subst. split; [apply String.eqb_refl | reflexivity].
Qed.

(** The list of one tag over one more line. *)
Lemma tag_list_snoc done line lv ts tg msg (d : DefaultDict.t Log.entry) :
  Re.search esp_log_re line = Some [lv; ts; tg; msg] ->
  (forall t e,
      In e (DefaultDict.get t d) <->
      Log.tag e = t /\ exists level, logged done level e) ->
  forall t e,
    In e (DefaultDict.get t
            (DefaultDict.append tg
               {| Log.oid := length done + 1; Log.timestamp := ts;
                  Log.tag := tg; Log.message := strip msg |} d))
    <-> Log.tag e = t /\ exists level, logged (done ++ [line]) level e.
Proof.
  intros H Hd t e. rewrite get_append, in_app_singleton, Hd. split.
  - intros [(Ht & level & Hl)|(E & ->)].
    + split; [exact Ht|]. exists level.
      rewrite (logged_snoc_some done _ _ _ H). now left.
    + apply String.eqb_eq in E. split; [exact E|]. exists lv.
      rewrite (logged_snoc_some done _ _ _ H). now right.
  - intros (Ht & level & Hl).
    rewrite (logged_snoc_some done _ _ _ H) in Hl.
    destruct Hl as [Hl|(_ & ->)].
    + left. split; [exact Ht | now exists level].
    + right. split; [|reflexivity]. apply String.eqb_eq. exact Ht.
Qed.

Lemma serial_facts_line done line r :
  serial_facts done r -> serial_facts (done ++ [line]) (serial_line r line).
Proof.
  intros (Hn & Hts & Hrb & (He & Hw & Hi & Hg) & (Se & Sw & Si & Sg)).
  unfold serial_facts.
  rewrite timestamps_serial_line, serial_line_reboots, Hts, Hrb.
  rewrite filter_app, map_app, length_app. cbn [length filter].
  split; [|split; [reflexivity|split;
    [now destruct (is_banner line); cbn; rewrite ?app_nil_r|]]].
  - destruct (esp_log_search_cases line) as [H|(lv & ts & tg & msg & H)].
    + now destruct (serial_line_none r _ H) as (-> & _); rewrite Hn.
    + now destruct (serial_line_some r _ H) as (-> & _); rewrite Hn.
  - destruct (esp_log_search_cases line) as [H|(lv & ts & tg & msg & H)].
    + destruct (serial_line_none r _ H) as (_ & -> & -> & -> & ->).
      split; [|now repeat split].
      split; [|split; [|split]].
      * intros e. rewrite (logged_snoc_none done _ _ _ H). apply He.
      * intros e. rewrite (logged_snoc_none done _ _ _ H). apply Hw.
      * intros e. rewrite (logged_snoc_none done _ _ _ H). apply Hi.
      * intros t e. rewrite Hg.
        split; intros (Ht & level & Hl); (split; [exact Ht|]); exists level.
        -- now apply (logged_snoc_none done _ _ _ H).
        -- now apply (logged_snoc_none done _ _ _ H) in Hl.
    + destruct (serial_line_some r _ H) as (_ & -> & -> & -> & ->).
      rewrite Hn.
      set (x := {| Log.oid := length done + 1; Log.timestamp := ts;
                   Log.tag := tg; Log.message := strip msg |}).
      assert (Hx : forall level y,
                 logged done level y -> Log.oid y < Log.oid x).
      { intros level y Hy. apply logged_bound in Hy. cbn. lia. }
      split; [split; [|split; [|split]] | split; [|split; [|split]]].
      * exact (@severity_list_snoc done line "E" lv ts tg msg (errors r) H He).
      * exact (@severity_list_snoc done line "W" lv ts tg msg (warnings r) H Hw).
      * exact (@severity_list_snoc done line "I" lv ts tg msg (info_messages r) H Hi).
      * exact (@tag_list_snoc done line lv ts tg msg (esp_logs r) H Hg).
      * apply in_file_order_if; [exact Se|].
        intros y Hy. apply He in Hy. eapply Hx, Hy.
      * apply in_file_order_if; [exact Sw|].
        intros y Hy. apply Hw in Hy. eapply Hx, Hy.
      * apply in_file_order_if; [exact Si|].
        intros y Hy. apply Hi in Hy. eapply Hx, Hy.
      * intros t. rewrite get_append. apply in_file_order_if; [apply Sg|].
        intros y Hy. apply Hg in Hy. destruct Hy as (_ & level & Hy).
        eapply Hx, Hy.
Qed.

Lemma serial_facts_run f : serial_facts f (fold_left serial_line f serial_empty).
Proof.
  apply (fold_left_prefix serial_line serial_facts).
  - apply serial_facts_empty.
  - intros done x s. apply serial_facts_line.
Qed.

End SerialRun.

Section SerialSummary.
Implicit Types (e : Log.entry) (f : list string).

(** The severity lists and the tag index against the file.  A record is in
    [errors] exactly when it is the record of a line that the log pattern
    matches with the code E (its [oid] being the number of the line), and
    likewise [warnings] for W and [info_messages] for I; the list of a tag in
    [esp_logs] holds exactly the records of the matched lines with that tag,
    whatever their code.  Each of these lists is in the order of the lines
    of the file. *)
Theorem serial_lists_are_the_log_lines f :
  let data := analyze_serial_log (Some f) in
  (forall e, In e (get errors [] data) <-> logged f "E" e) /\
  (forall e, In e (get warnings [] data) <-> logged f "W" e) /\
  (forall e, In e (get info_messages [] data) <-> logged f "I" e) /\
  (forall t e,
      In e (DefaultDict.get t (get esp_logs [] data)) <->
      Log.tag e = t /\ exists level, logged f level e) /\
  in_file_order (get errors [] data) /\
  in_file_order (get warnings [] data) /\
  in_file_order (get info_messages [] data) /\
  forall t, in_file_order (DefaultDict.get t (get esp_logs [] data)).
Proof.
  cbn.
  destruct (serial_facts_run f)
    as (_ & _ & _ & (He & Hw & Hi & Hg) & (Se & Sw & Si & Sg)).
  split; [exact He|]. split; [exact Hw|]. split; [exact Hi|].
  split; [exact Hg|]. split; [exact Se|]. split; [exact Sw|].
  split; [exact Si | exact Sg].
Qed.

(** The lines counted and the reboots.  [total_lines] is the number of
    lines of the file; [reboots] holds the lines that contain one of the two
    banners, each stripped, in the order of the file, and nothing else; the
    key [timestamps] is never filled. *)
Theorem reboots_are_the_banner_lines f :
  exists r,
    analyze_serial_log (Some f) = Results r /\
    total_lines r = length f /\
    reboots r = map strip (filter is_banner f) /\
    timestamps r = [].
Proof.
  eexists. split; [reflexivity|].
  now destruct (serial_facts_run f) as (? & ? & ? & _).
Qed.

End SerialSummary.

Section Grouping.
Variables (V : Type) (key : V -> string).
Implicit Types (d : DefaultDict.t V) (k : string) (v : V).

Lemma keys_append k k' v d :
  In k' (map fst (DefaultDict.append k v d)) <-> In k' (map fst d) \/ k' = k.
Proof.
  induction d as [|[k0 vs] d IH]; cbn.
  - intuition congruence.
  - destruct (String.eqb_spec k0 k) as [->|Hne]; cbn.
    + intuition congruence.
    + rewrite IH. tauto.
Qed.

(** [d[key(v)].append(v)] keeps the dictionary grouped. *)
Lemma grouped_append v d :
  grouped_by key d -> grouped_by key (DefaultDict.append (key v) v d).
Proof.
  unfold grouped_by. induction d as [|[k0 vs] d IH]; cbn.
  - intros _. split; repeat constructor; easy.
  - intros (Hnd & Hall).
    apply NoDup_cons_iff in Hnd. destruct Hnd as (Hk0 & Hnd).
    apply Forall_cons_iff in Hall. destruct Hall as ((Hne & Hvs) & Hall).
    cbn in Hne, Hvs.
    destruct (String.eqb_spec k0 (key v)) as [E|Hne']; cbn.
    + split; [now constructor|]. constructor; [|exact Hall]. cbn. split.
      * now destruct vs.
      * apply Forall_app. split; [exact Hvs | now repeat constructor].
    + destruct (IH (conj Hnd Hall)) as (Hnd' & Hall').
      split.
      * constructor; [|exact Hnd'].
        rewrite keys_append. intros [H|H]; [easy | congruence].
      * constructor; [now split | exact Hall'].
Qed.

(** In a grouped dictionary, the list written under a key is the list that
    [get] finds, and every value is found under its own key. *)
Lemma grouped_get d k (vs : list V) :
  grouped_by key d -> In (k, vs) d -> DefaultDict.get k d = vs.
Proof.
  unfold grouped_by. induction d as [|[k0 vs0] d IH]; cbn; [easy|].
  intros (Hnd & Hall) [E|Hin].
  - injection E as -> ->. now rewrite String.eqb_refl.
  - apply NoDup_cons_iff in Hnd. destruct Hnd as (Hk0 & Hnd).
    apply Forall_cons_iff in Hall. destruct Hall as (_ & Hall).
    destruct (String.eqb_spec k0 k) as [->|_].
    + exfalso. apply Hk0. now apply (in_map fst) in Hin.
    + now apply IH.
Qed.

Lemma grouped_values d v :
  grouped_by key d ->
  (In v (DefaultDict.values d) <-> In v (DefaultDict.get (key v) d)).
Proof.
  intros Hg. split; [|apply get_in_values].
  unfold DefaultDict.values. intros H. apply in_concat in H.
  destruct H as (vs & Hvs & Hv). apply in_map_iff in Hvs.
  destruct Hvs as ([k vs'] & E & Hin). cbn in E. subst vs'.
  pose proof (proj2 Hg) as Hall. rewrite Forall_forall in Hall.
  destruct (Hall _ Hin) as (_ & Hkey). cbn in Hkey.
  rewrite Forall_forall in Hkey.
  rewrite (Hkey v Hv). now rewrite (@grouped_get d k vs Hg Hin).
Qed.

End Grouping.

Section TagIndex.
Implicit Types (r : serial_results) (e : Log.entry) (f : list string).

Lemma esp_logs_grouped_line r line :
  grouped_by Log.tag (esp_logs r) ->
  grouped_by Log.tag (esp_logs (serial_line r line)).
Proof.
  intros H.
  destruct (esp_log_search_cases line) as [Hs|(lv & ts & tg & msg & Hs)].
  - now destruct (serial_line_none r _ Hs) as (_ & _ & _ & _ & ->).
  - destruct (serial_line_some r _ Hs) as (_ & _ & _ & _ & ->).
    exact (@grouped_append _ Log.tag
             {| Log.oid := total_lines r + 1; Log.timestamp := ts;
                Log.tag := tg; Log.message := strip msg |} _ H).
Qed.

Lemma esp_logs_grouped_fold f :
  forall r,
    grouped_by Log.tag (esp_logs r) ->
    grouped_by Log.tag (esp_logs (fold_left serial_line f r)).
Proof.
  induction f as [|line f IH]; cbn [fold_left]; intros r H; [exact H|].
  now apply IH, esp_logs_grouped_line.
Qed.

(** The sizes of the lists after one more line. *)
Lemma serial_sizes_line r line :
  length (errors r) + length (warnings r) + length (info_messages r)
  <= length (DefaultDict.values (esp_logs r)) <= total_lines r ->
  let r' := serial_line r line in
  length (errors r') + length (warnings r') + length (info_messages r')
  <= length (DefaultDict.values (esp_logs r')) <= total_lines r'.
Proof.
  intros H. cbv zeta.
  destruct (esp_log_search_cases line) as [Hs|(lv & ts & tg & msg & Hs)].
  - destruct (serial_line_none r _ Hs) as (-> & -> & -> & -> & ->). lia.
  - destruct (serial_line_some r _ Hs) as (-> & -> & -> & -> & ->).
    rewrite (Permutation_length (values_append tg _ (esp_logs r))).
    rewrite length_app. cbn [length].
    destruct (String.eqb_spec lv "E") as [->|_]; cbn;
      rewrite ?length_app; cbn; [lia|].
    destruct (String.eqb_spec lv "W") as [->|_]; cbn;
      rewrite ?length_app; cbn; [lia|].
    destruct (lv =? "I"); rewrite ?length_app; cbn; lia.
Qed.

Lemma serial_sizes_fold f :
  forall r,
    length (errors r) + length (warnings r) + length (info_messages r)
    <= length (DefaultDict.values (esp_logs r)) <= total_lines r ->
    let r' := fold_left serial_line f r in
    length (errors r') + length (warnings r') + length (info_messages r')
    <= length (DefaultDict.values (esp_logs r')) <= total_lines r'.
Proof.
  induction f as [|line f IH]; cbn [fold_left]; intros r H; [exact H|].
  apply IH. now apply serial_sizes_line.
Qed.

(** The tag index.  Whatever the serial log, [esp_logs] has no tag twice
    and no empty list, and the records under a tag have that tag; every
    record of a severity list is also in the index, under its own tag; and
    there are at most as many severity records as indexed records, and at
    most as many indexed records as lines. *)
Theorem tag_index_grouped (serial_log : option (list string)) :
  let data := analyze_serial_log serial_log in
  let logs := get esp_logs [] data in
  grouped_by Log.tag logs /\
  (forall e,
      In e (get errors [] data) \/ In e (get warnings [] data) \/
      In e (get info_messages [] data) ->
      In e (DefaultDict.get (Log.tag e) logs)) /\
  length (get errors [] data) + length (get warnings [] data)
  + length (get info_messages [] data)
  <= length (DefaultDict.values logs) <= get total_lines 0 data.
Proof.
  destruct serial_log as [f|]; cbn.
  - split; [|split].
    + apply esp_logs_grouped_fold. split; constructor.
    + destruct (serial_facts_run f) as (_ & _ & _ & (He & Hw & Hi & Hg) & _).
      intros e [H|[H|H]]; apply Hg; (split; [reflexivity|]).
      * exists "E". now apply He.
      * exists "W". now apply Hw.
      * exists "I". now apply Hi.
    + apply (serial_sizes_fold f serial_empty). cbn. lia.
  - split; [split; constructor|]. split; [tauto | lia].
Qed.

(** The fields of a record.  Every record of the tag index has a timestamp
    that is a non-empty run of decimal digits and a tag that is a non-empty
    run of letters, digits and underscores; its message holds no newline and
    no white space at either end (it may be empty); its [oid] is the number
    of a line of the file; and the code of its line is E, W, I or D. *)
Theorem device_record_fields f e :
  In e (DefaultDict.values (get esp_logs [] (analyze_serial_log (Some f)))) ->
  Log.timestamp e <> "" /\ all isdigit (Log.timestamp e) = true /\
  Log.tag e <> "" /\ all isword (Log.tag e) = true /\
  all notnl (Log.message e) = true /\ strip (Log.message e) = Log.message e /\
  1 <= Log.oid e <= length f /\
  exists level, In level ["E"; "W"; "I"; "D"] /\ logged f level e.
Proof.
  cbn. intros H.
  assert (Hgr : grouped_by Log.tag
                  (esp_logs (fold_left serial_line f serial_empty))).
  { apply esp_logs_grouped_fold. split; constructor. }
  apply (@grouped_values _ Log.tag _ e Hgr) in H.
  destruct (serial_facts_run f) as (_ & _ & _ & (_ & _ & _ & Hg) & _).
  apply Hg in H. destruct H as (_ & level & Hl).
  pose proof (logged_bound Hl) as Hb.
  destruct Hl as (line & msg & H1 & Hn & Hs & Hm).
  destruct (esp_log_search _ Hs)
    as (pre & post & c & ts & tg & m & E & _ & Hc & Ht1 & Ht2 & Hg1 & Hg2
        & Hm1 & Hm2).
  injection E as -> <- <- <-.
  repeat split; try assumption; try lia.
  - rewrite Hm. now apply all_strip.
  - rewrite Hm. apply strip_idem.
  - exists (String c ""). split; [now apply oneof_EWID|].
    now exists line, msg.
Qed.

(** A file whose third line is an error, from the theorem. *)
Lemma device_record_fields_witness :
  let e := {| Log.oid := 3; Log.timestamp := "1234"; Log.tag := "wifi";
              Log.message := "connection lost" |} in
  all isdigit (Log.timestamp e) = true /\ 1 <= Log.oid e <= 3.
Proof.
  cbv zeta.
  destruct (@device_record_fields
              ["boot" ++ LF; "I (10) app: start" ++ LF;
               "E (1234) wifi: connection lost " ++ LF]
              {| Log.oid := 3; Log.timestamp := "1234"; Log.tag := "wifi";
                 Log.message := "connection lost" |})
    as (_ & H1 & _ & _ & _ & _ & H2 & _).
  - vm_compute. tauto.
  - split; [exact H1 | exact H2].
Defined.

End TagIndex.

(* ------------------------------------------------------------------ *)
(** * The MQTT analysis as a whole *)

Section MqttRun.
Implicit Types (r : mqtt_results) (e : Msg.entry) (f done : list string).

(** The three ways through the loop body, with their conditions. *)
Lemma mqtt_line_marked (now : clock) (tick : nat) r line :
  (isin "[MQTT]" line = false /\ mqtt_line now (tick, r) line = (tick, r)) \/
  (isin "[MQTT]" line = true /\ Re.search mqtt_re line = None /\
   mqtt_line now (tick, r) line
   = (tick, set_total_messages (total_messages r + 1) r)) \/
  (isin "[MQTT]" line = true /\
   exists topic payload,
     Re.search mqtt_re line = Some [topic; payload] /\
     mqtt_line now (tick, r) line
     = (S tick,
        categorize
          {| Msg.topic := topic; Msg.payload := strip payload;
             Msg.timestamp := now tick |}
          (set_topics
             (DefaultDict.append topic
                {| Msg.topic := topic; Msg.payload := strip payload;
                   Msg.timestamp := now tick |} (topics r))
             (set_total_messages (total_messages r + 1) r)))).
Proof.
  unfold mqtt_line. destruct (isin "[MQTT]" line); [right | now left].
  destruct (mqtt_search_cases line) as [H|(topic & payload & H)]; rewrite H.
  - now left.
  - right. split; [reflexivity|]. now exists topic, payload.
Qed.

Lemma published_snoc done line topic payload :
  published (done ++ [line]) topic payload <->
  published done topic payload \/
  (isin "[MQTT]" line = true /\
   exists raw, Re.search mqtt_re line = Some [topic; raw] /\
               payload = strip raw).
Proof.
  unfold published. split.
  - intros (l & raw & Hin & Hm & Hs & Hp).
    apply in_app_iff in Hin. destruct Hin as [Hin|[<-|[]]].
    + left. now exists l, raw.
    + right. split; [exact Hm | now exists raw].
  - intros [(l & raw & Hin & Hm & Hs & Hp)|(Hm & raw & Hs & Hp)].
    + exists l, raw. repeat split; try assumption.
      apply in_app_iff. now left.
    + exists line, raw. repeat split; try assumption.
      apply in_app_iff. right. now left.
Qed.

Lemma mqtt_facts_empty (now : clock) (tick : nat) :
  mqtt_facts now tick [] (tick, mqtt_empty).
Proof.
  cbn. split; [reflexivity|]. split; [reflexivity|]. split; [lia|].
  split; [lia|]. split; [split; constructor|]. split.
  - intros e [].
  - intros topic payload (l & raw & [] & _).
Qed.

Lemma mqtt_facts_line (now : clock) (tick : nat) done line
  (state : nat * mqtt_results) :
  mqtt_facts now tick done state ->
  mqtt_facts now tick (done ++ [line]) (mqtt_line now state line).
Proof.
  destruct state as [t r]. unfold mqtt_facts at 1.
  intros (Hn & Hrr & Ht & Hle & Hgr & Hsound & Hcomplete).
  destruct (mqtt_line_marked now t r line)
    as [(Hm & ->) | [(Hm & Hs & ->) | (Hm & topic & raw & Hs & ->)]].
  - (* no marker *)
    unfold mqtt_facts. rewrite filter_app. cbn [filter]. rewrite Hm, app_nil_r.
    split; [exact Hn|]. split; [exact Hrr|]. split; [exact Ht|].
    split; [exact Hle|]. split; [exact Hgr|]. split.
    + intros e He. destruct (Hsound e He) as (Hp & Hk).
      split; [apply published_snoc; now left | exact Hk].
    + intros topic payload Hp. apply published_snoc in Hp.
      destruct Hp as [Hp|(Hm' & _)]; [now apply Hcomplete | congruence].
  - (* the marker without a topic and a payload *)
    unfold mqtt_facts. rewrite filter_app. cbn [filter]. rewrite Hm.
    rewrite length_app.
    cbn [set_total_messages total_messages topics responses_received length].
    split; [lia|]. split; [exact Hrr|]. split; [exact Ht|].
    split; [lia|]. split; [exact Hgr|]. split.
    + intros e He. destruct (Hsound e He) as (Hp & Hk).
      split; [apply published_snoc; now left | exact Hk].
    + intros topic payload Hp. apply published_snoc in Hp.
      destruct Hp as [Hp|(_ & raw & Hs' & _)];
        [now apply Hcomplete | congruence].
  - (* a message *)
    set (x := {| Msg.topic := topic; Msg.payload := strip raw;
                 Msg.timestamp := now t |}).
    unfold mqtt_facts.
    destruct (categorize_spec x
                (set_topics (DefaultDict.append topic x (topics r))
                   (set_total_messages (total_messages r + 1) r)))
      as (Hc1 & Hc2 & _).
    assert (Hrr' : responses_received
                     (categorize x
                        (set_topics (DefaultDict.append topic x (topics r))
                           (set_total_messages (total_messages r + 1) r)))
                   = responses_received r).
    { unfold categorize. cbn [Msg.topic x].
      destruct (isin "/command" topic); [reflexivity|].
      destruct (isin "/status" topic); [reflexivity|].
      now destruct (isin "homeassistant/" topic). }
    rewrite Hc1, Hc2, Hrr'.
    cbn [set_topics set_total_messages topics total_messages].
    pose proof (values_append topic x (topics r)) as Hv.
    rewrite (Permutation_length Hv), filter_app, !length_app.
    cbn [filter length]. rewrite Hm. cbn [length].
    split; [lia|]. split; [exact Hrr|]. split; [lia|]. split; [lia|].
    split; [exact (@grouped_append _ Msg.topic x _ Hgr)|]. split.
    + intros e He. apply (Permutation_in _ Hv) in He.
      apply in_app_iff in He. destruct He as [He|[<-|[]]].
      * destruct (Hsound e He) as (Hp & k & Hk & Hts).
        split; [apply published_snoc; now left|].
        exists k. split; [lia | exact Hts].
      * split.
        -- apply published_snoc. right. split; [exact Hm|].
           now exists raw.
        -- exists t. split; [lia | reflexivity].
    + intros tp pl Hp. apply published_snoc in Hp.
      destruct Hp as [Hp|(_ & raw' & Hs' & ->)].
      * destruct (Hcomplete tp pl Hp) as (ts & Hin). exists ts.
        apply (Permutation_in _ (Permutation_sym Hv)).
        apply in_app_iff. now left.
      * rewrite Hs in Hs'. injection Hs' as <- <-. exists (now t).
        apply (Permutation_in _ (Permutation_sym Hv)).
        apply in_app_iff. right. now left.
Qed.

Lemma mqtt_facts_run (now : clock) (tick : nat) f :
  mqtt_facts now tick f (fold_left (mqtt_line now) f (tick, mqtt_empty)).
Proof.
  apply (fold_left_prefix (mqtt_line now) (mqtt_facts now tick)).
  - apply mqtt_facts_empty.
  - intros done x s. apply mqtt_facts_line.
Qed.

End MqttRun.

Section MqttSummary.
Implicit Types (r : mqtt_results) (e : Msg.entry) (f : list string).

(** The counters of the MQTT analysis.  [total_messages] is the number of
    lines that contain the marker; the topic index holds at most that many
    records, one per reading of the clock that the analysis made; and the
    key [responses_received] is never filled. *)
Theorem mqtt_counters (now : clock) (tick : nat) f :
  exists tick' r,
    analyze_mqtt_log now tick (Some f) = (tick', Results r) /\
    total_messages r = length (filter (isin "[MQTT]") f) /\
    length (DefaultDict.values (topics r)) <= total_messages r /\
    tick' = tick + length (DefaultDict.values (topics r)) /\
    responses_received r = [].
Proof.
  cbn [analyze_mqtt_log].
  pose proof (mqtt_facts_run now tick f) as H.
  destruct (fold_left (mqtt_line now) f (tick, mqtt_empty)) as [tick' r].
  destruct H as (H1 & H2 & H3 & H4 & _).
  exists tick', r. split; [reflexivity|]. split; [exact H1|].
  split; [exact H4|]. split; [exact H3 | exact H2].
Qed.

Lemma bus_records_facts (now : clock) (tick : nat) f :
  let tick' := fst (analyze_mqtt_log now tick (Some f)) in
  let index := get topics [] (snd (analyze_mqtt_log now tick (Some f))) in
  (forall e,
      In e (DefaultDict.values index) ->
      published f (Msg.topic e) (Msg.payload e) /\
      exists k, tick <= k < tick' /\ Msg.timestamp e = now k) /\
  (forall topic payload,
      published f topic payload ->
      exists timestamp,
        In {| Msg.topic := topic; Msg.payload := payload;
              Msg.timestamp := timestamp |}
           (DefaultDict.values index)).
Proof.
  cbn [analyze_mqtt_log].
  pose proof (mqtt_facts_run now tick f) as H.
  destruct (fold_left (mqtt_line now) f (tick, mqtt_empty)) as [tick' r].
  cbn. now destruct H as (_ & _ & _ & _ & _ & Hsound & Hcomplete).
Qed.

(** The bus records against the file.  Every record of the topic index is
    the record of a line that carries the marker and that the MQTT pattern
    cuts into the topic of the record and a text of which the payload is the
    stripped form, and its timestamp is one of the readings of the clock
    made during this analysis; conversely every such line has its record in
    the index. *)
Theorem bus_records_are_the_marked_lines (now : clock) (tick : nat) f :
  let tick' := fst (analyze_mqtt_log now tick (Some f)) in
  let index := get topics [] (snd (analyze_mqtt_log now tick (Some f))) in
  (forall e,
      In e (DefaultDict.values index) ->
      published f (Msg.topic e) (Msg.payload e) /\
      exists k, tick <= k < tick' /\ Msg.timestamp e = now k) /\
  (forall topic payload,
      published f topic payload ->
      exists timestamp,
        In {| Msg.topic := topic; Msg.payload := payload;
              Msg.timestamp := timestamp |}
           (DefaultDict.values index)).
Proof. apply bus_records_facts. Qed.

Lemma published_fields f topic payload :
  published f topic payload ->
  topic <> "" /\ all nonspace topic = true /\
  all notnl payload = true /\ strip payload = payload.
Proof.
  intros (line & raw & _ & _ & Hs & ->).
  destruct (mqtt_search _ Hs) as (_ & _ & tp & pl & E & _ & H1 & H2 & _ & H4).
  injection E as <- <-.
  repeat split; try assumption; [now apply all_strip | apply strip_idem].
Qed.

Lemma topic_index_facts (now : clock) (tick : nat)
  (mqtt_log : option (list string)) :
  let data := snd (analyze_mqtt_log now tick mqtt_log) in
  let index := get topics [] data in
  grouped_by Msg.topic index /\
  (forall e,
      In e (get commands_sent [] data) \/ In e (get status_messages [] data) ->
      In e (DefaultDict.values index)) /\
  (forall e,
      In e (DefaultDict.values index) ->
      Msg.topic e <> "" /\ all nonspace (Msg.topic e) = true /\
      all notnl (Msg.payload e) = true /\
      strip (Msg.payload e) = Msg.payload e).
Proof.
  cbv zeta.
  destruct (analyze_mqtt_log_inv now tick mqtt_log) as (Hc & Hs & _).
  destruct mqtt_log as [f|]; cbn [analyze_mqtt_log] in *.
  - pose proof (mqtt_facts_run now tick f) as H.
    destruct (fold_left (mqtt_line now) f (tick, mqtt_empty)) as [tick' r].
    cbn in *. destruct H as (_ & _ & _ & _ & Hgr & Hsound & _).
    split; [exact Hgr|]. split.
    + intros e [He|He].
      * apply (Permutation_in _ Hc), filter_In in He. tauto.
      * apply (Permutation_in _ Hs), filter_In in He. tauto.
    + intros e He. destruct (Hsound e He) as (Hp & _).
      exact (published_fields Hp).
  - cbn. split; [split; constructor|]. split; [tauto | easy].
Qed.

(** The topic index and the fields of a bus record.  Whatever the MQTT
    log, [topics] has no topic twice and no empty list, and the records under
    a topic have that topic; every command and every status message is one
    of the records of the index; and every record has a topic that is not
    empty and holds no white space, and a payload that holds no newline and
    no white space at either end (it may be empty). *)
Theorem topic_index_grouped (now : clock) (tick : nat)
  (mqtt_log : option (list string)) :
  let data := snd (analyze_mqtt_log now tick mqtt_log) in
  let index := get topics [] data in
  grouped_by Msg.topic index /\
  (forall e,
      In e (get commands_sent [] data) \/ In e (get status_messages [] data) ->
      In e (DefaultDict.values index)) /\
  (forall e,
      In e (DefaultDict.values index) ->
      Msg.topic e <> "" /\ all nonspace (Msg.topic e) = true /\
      all notnl (Msg.payload e) = true /\
      strip (Msg.payload e) = Msg.payload e).
Proof. apply topic_index_facts. Qed.

(** Lines without the marker change nothing: the analysis of a log and the
    analysis of its marked lines alone are the same, down to the readings of
    the clock. *)
Theorem unmarked_lines_ignored (now : clock) (tick : nat) f :
  analyze_mqtt_log now tick (Some f)
  = analyze_mqtt_log now tick (Some (filter (isin "[MQTT]") f)).
Proof.
  cbn [analyze_mqtt_log].
  enough (H : forall state,
             fold_left (mqtt_line now) f state
             = fold_left (mqtt_line now) (filter (isin "[MQTT]") f) state)
    by now rewrite H.
  induction f as [|line f IH]; intros [t r]; cbn [fold_left filter];
    [reflexivity|].
  destruct (isin "[MQTT]" line) eqn:Hm; cbn [fold_left]; [apply IH|].
  rewrite <- IH. f_equal. unfold mqtt_line. now rewrite Hm.
Qed.

End MqttSummary.

(* ------------------------------------------------------------------ *)
(** * More on the correlator *)

Section CaseFolding.

Lemma isspace_lower_char (c : ascii) : isspace (lower_char c) = isspace c.
Proof. destruct c as [[] [] [] [] [] [] [] []]; reflexivity. Qed.

Lemma lower_char_idem (c : ascii) : lower_char (lower_char c) = lower_char c.
Proof. destruct c as [[] [] [] [] [] [] [] []]; reflexivity. Qed.

Lemma lower_idem (s : string) : lower (lower s) = lower s.
Proof.
  induction s as [|c s IH]; cbn; [reflexivity|].
  now rewrite lower_char_idem, IH.
Qed.

Lemma lower_append (a b : string) : lower (a ++ b) = lower a ++ lower b.
Proof. induction a as [|c a IH]; cbn; [reflexivity | now rewrite IH]. Qed.

Lemma split_from_lower (s : string) :
  forall tok,
    split_from (option_map lower tok) (lower s)
    = map lower (split_from tok s).
Proof.
  induction s as [|c s IH]; intros tok; cbn [lower split_from].
  - now destruct tok.
  - rewrite isspace_lower_char. destruct (isspace c).
    + destruct tok; cbn [option_map map]; [f_equal|]; apply (IH None).
    + rewrite <- IH. f_equal. destruct tok; cbn; [|reflexivity].
      now rewrite lower_append.
Qed.

(** The tokens of a text in lower case are the tokens of the text, in lower
    case. *)
Lemma split_lower (s : string) : split (lower s) = map lower (split s).
Proof. apply (split_from_lower s None). Qed.

End CaseFolding.

Lemma filter_length_le (A : Type) (p : A -> bool) (l : list A) :
  length (filter p l) <= length l.
Proof. induction l as [|x l IH]; cbn; [lia | destruct (p x); cbn; lia]. Qed.

Section CorrelatorRun.
Implicit Types (cmd : Msg.entry) (f : list string).
Implicit Types (serial_data : analysis serial_results).
Implicit Types (mqtt_data : analysis mqtt_results).

(** Correlation does not look at the case of the payload.  Two commands
    whose payloads are the same text up to the case of their letters either
    both stop the correlator with the same exception or get the same
    bus-side and the same device-side responses. *)
Theorem correlation_ignores_case serial_data mqtt_data cmd1 cmd2 :
  lower (Msg.payload cmd1) = lower (Msg.payload cmd2) ->
  match correlate_command serial_data mqtt_data cmd1,
        correlate_command serial_data mqtt_data cmd2 with
  | Ok c1, Ok c2 =>
      Corr.mqtt_responses c1 = Corr.mqtt_responses c2 /\
      Corr.serial_responses c1 = Corr.serial_responses c2
  | Raise e1, Raise e2 => e1 = e2
  | _, _ => False
  end.
Proof.
  intros H.
  assert (Hs : map lower (split (Msg.payload cmd1))
               = map lower (split (Msg.payload cmd2)))
    by now rewrite <- !split_lower, H.
  unfold correlate_command, mqtt_scan. rewrite H.
  destruct (split (Msg.payload cmd1)) as [|t1 l1],
           (split (Msg.payload cmd2)) as [|t2 l2];
    cbn in Hs |- *; try discriminate; [reflexivity|].
  injection Hs as -> _. now split.
Qed.

(** The command [STATUS] and the command [status], from the theorem. *)
Lemma correlation_ignores_case_witness :
  let shouted := {| Msg.topic := "wordclock/command";
                    Msg.payload := "STATUS"; Msg.timestamp := "" |} in
  let plain := {| Msg.topic := "wordclock/command"; Msg.payload := "status";
                  Msg.timestamp := "" |} in
  let serial_data := analyze_serial_log (Some ["I (7) app: Status sent" ++ LF]) in
  let mqtt_data := snd (analyze_mqtt_log blank 0
                          (Some ["[MQTT] wordclock/status Status: OK" ++ LF])) in
  match correlate_command serial_data mqtt_data shouted,
        correlate_command serial_data mqtt_data plain with
  | Ok c1, Ok c2 =>
      Corr.mqtt_responses c1 = Corr.mqtt_responses c2 /\
      Corr.serial_responses c1 = Corr.serial_responses c2
  | Raise e1, Raise e2 => e1 = e2
  | _, _ => False
  end.
Proof.
  cbv zeta.
  exact (@correlation_ignores_case
           (analyze_serial_log (Some ["I (7) app: Status sent" ++ LF]))
           (snd (analyze_mqtt_log blank 0
                   (Some ["[MQTT] wordclock/status Status: OK" ++ LF])))
           {| Msg.topic := "wordclock/command"; Msg.payload := "STATUS";
              Msg.timestamp := "" |}
           {| Msg.topic := "wordclock/command"; Msg.payload := "status";
              Msg.timestamp := "" |}
           eq_refl).
Defined.

Lemma esp_logs_grouped (serial_log : option (list string)) :
  grouped_by Log.tag (get esp_logs [] (analyze_serial_log serial_log)).
Proof.
  destruct serial_log as [f|]; cbn.
  - apply esp_logs_grouped_fold. split; constructor.
  - split; constructor.
Qed.

(** The responses that [device_matches] finds in a grouped index. *)
Lemma device_matches_grouped (cmd_keyword : string)
  (logs : DefaultDict.t Log.entry) (resp : Resp.entry) :
  grouped_by Log.tag logs ->
  (In resp (device_matches cmd_keyword logs) <->
   exists log,
     In log (DefaultDict.values logs) /\
     isin cmd_keyword (lower (Log.message log)) = true /\
     resp = {| Resp.tag := Log.tag log; Resp.message := Log.message log |}).
Proof.
  intros (_ & Hall). rewrite Forall_forall in Hall.
  unfold device_matches, DefaultDict.values. rewrite in_flat_map. split.
  - intros ([k vs] & Hin & H). cbn [fst snd] in H.
    apply in_map_iff in H. destruct H as (log & <- & H).
    apply filter_In in H. destruct H as (Hlog & Hkw).
    destruct (Hall _ Hin) as (_ & Hk). cbn in Hk.
    rewrite Forall_forall in Hk.
    exists log. split; [|split; [exact Hkw | now rewrite (Hk log Hlog)]].
    apply in_concat. exists vs. split; [|exact Hlog].
    apply in_map_iff. now exists (k, vs).
  - intros (log & Hin & Hkw & ->).
    apply in_concat in Hin. destruct Hin as (vs & Hvs & Hlog).
    apply in_map_iff in Hvs. destruct Hvs as ([k vs'] & E & Hin).
    cbn in E. subst vs'. exists (k, vs). split; [exact Hin|].
    cbn [fst snd]. apply in_map_iff. exists log.
    destruct (Hall _ Hin) as (_ & Hk). cbn in Hk.
    rewrite Forall_forall in Hk. rewrite (Hk log Hlog).
    split; [reflexivity|]. apply filter_In. now split.
Qed.

Lemma device_matches_length (cmd_keyword : string)
  (logs : DefaultDict.t Log.entry) :
  length (device_matches cmd_keyword logs) <= length (DefaultDict.values logs).
Proof.
  unfold device_matches, DefaultDict.values.
  induction logs as [|[k vs] logs IH]; cbn; [lia|].
  rewrite !length_app, length_map.
  pose proof (filter_length_le
                (fun log => isin cmd_keyword (lower (Log.message log))) vs).
  lia.
Qed.

(** The device-side responses.  For a command whose payload has a token,
    the device-side responses are the records of the tag index whose
    message, in lower case, contains the first token of the payload, in lower
    case: each response is the tag and the message of such a record, every
    such record gives a response, and there are at most as many responses as
    records. *)
Theorem device_side_responses (serial_log : option (list string))
  mqtt_data cmd token rest :
  split (Msg.payload cmd) = token :: rest ->
  let logs := get esp_logs [] (analyze_serial_log serial_log) in
  exists c,
    correlate_command (analyze_serial_log serial_log) mqtt_data cmd = Ok c /\
    length (Corr.serial_responses c) <= length (DefaultDict.values logs) /\
    forall resp,
      In resp (Corr.serial_responses c) <->
      exists log,
        In log (DefaultDict.values logs) /\
        isin (lower token) (lower (Log.message log)) = true /\
        resp = {| Resp.tag := Log.tag log; Resp.message := Log.message log |}.
Proof.
  intros H. cbv zeta.
  rewrite (correlate_command_token (analyze_serial_log serial_log)
             mqtt_data _ H).
  eexists. split; [reflexivity|]. cbn [Corr.serial_responses]. split.
  - apply device_matches_length.
  - intros resp. apply device_matches_grouped, esp_logs_grouped.
Qed.

(** The command [set_time 14:30] and a log that mentions [set_time], from
    the theorem. *)
Lemma device_side_responses_witness :
  exists c,
    correlate_command
      (analyze_serial_log (Some ["I (9) clock: SET_TIME accepted" ++ LF]))
      (NotFound "MQTT log not found")
      {| Msg.topic := "wordclock/command"; Msg.payload := "set_time 14:30";
         Msg.timestamp := "" |}
    = Ok c /\
    In {| Resp.tag := "clock"; Resp.message := "SET_TIME accepted" |}
       (Corr.serial_responses c).
Proof.
  destruct (@device_side_responses
              (Some ["I (9) clock: SET_TIME accepted" ++ LF])
              (NotFound "MQTT log not found")
              {| Msg.topic := "wordclock/command";
                 Msg.payload := "set_time 14:30"; Msg.timestamp := "" |}
              "set_time" ["14:30"] eq_refl)
    as (c & Hc & _ & Hin).
  exists c. split; [exact Hc|]. apply Hin.
  exists {| Log.oid := 1; Log.timestamp := "9"; Log.tag := "clock";
            Log.message := "SET_TIME accepted" |}.
  split; [now left | split; reflexivity].
Defined.

End CorrelatorRun.

Section ReportRun.
Implicit Types (f : list string) (serial_log mqtt_log : option (list string)).
Implicit Types (serial_data : analysis serial_results).
Implicit Types (mqtt_data : analysis mqtt_results).

Lemma Forall2_map_eq (A B C : Type) (f : A -> C) (g : B -> C)
  (l : list A) (l' : list B) :
  Forall2 (fun a b => g b = f a) l l' -> map g l' = map f l.
Proof. induction 1 as [|a b l l' H _ IH]; cbn; [reflexivity | now rewrite H, IH]. Qed.

Lemma commands_stripped (now : clock) (tick : nat) mqtt_log (e : Msg.entry) :
  In e (get commands_sent [] (snd (analyze_mqtt_log now tick mqtt_log))) ->
  strip (Msg.payload e) = Msg.payload e.
Proof.
  intros H.
  destruct (topic_index_facts now tick mqtt_log) as (_ & Hin & Hf).
  now apply Hf, Hin; left.
Qed.

(** The payloads of the commands do not depend on the clock. *)
Lemma command_payloads_clock_free (now : clock) (tick : nat) mqtt_log :
  map Msg.payload
      (get commands_sent [] (snd (analyze_mqtt_log now tick mqtt_log)))
  = map Msg.payload
        (get commands_sent [] (snd (analyze_mqtt_log blank 0 mqtt_log))).
Proof.
  rewrite <- (analyze_mqtt_log_erase now tick mqtt_log), get_commands_erase.
  rewrite map_map. reflexivity.
Qed.

Lemma correlate_by_payloads serial_data mqtt_data :
  (forall e, In e (get commands_sent [] mqtt_data) ->
             strip (Msg.payload e) = Msg.payload e) ->
  let payloads := map Msg.payload (get commands_sent [] mqtt_data) in
  (In "" payloads -> correlate serial_data mqtt_data = Raise IndexError) /\
  (~ In "" payloads ->
   exists correlations,
     correlate serial_data mqtt_data = Ok correlations /\
     map Corr.command correlations = payloads).
Proof.
  intros Hstrip. cbv zeta. split.
  - intros H. apply in_map_iff in H. destruct H as (e & He & Hin).
    unfold correlate. apply correlate_loop_raise.
    apply Exists_exists. exists e. split; [exact Hin|]. now rewrite He.
  - intros H.
    destruct (@correlate_all_tokens serial_data mqtt_data)
      as (correlations & Hc & Hall).
    + apply Forall_forall. intros e He Hs. apply H.
      apply in_map_iff. exists e. split; [|exact He].
      now apply stripped_no_token; [apply Hstrip|].
    + exists correlations. split; [exact Hc|].
      apply Forall2_map_eq. revert Hall. apply Forall2_impl.
      now intros cmd c (Hcmd & _).
Qed.

(** When the correlator fails.  The bus log holds a command with the empty
    payload exactly when one of its marked lines has a command topic and
    nothing but white space after it.  In that case
    [correlate_command_responses] and [generate_report] both end with
    [IndexError], before any report is written; when the log holds none, the
    correlator returns one correlation per command, with the payloads of the
    commands in order. *)
Theorem empty_payload_stops_the_report (now : clock) (tick : nat)
  serial_log mqtt_log :
  let payloads :=
    map Msg.payload
        (get commands_sent [] (snd (analyze_mqtt_log now tick mqtt_log))) in
  (In "" payloads <->
   exists topic,
     isin "/command" topic = true /\
     match mqtt_log with
     | Some f => published f topic ""
     | None => False
     end) /\
  (In "" payloads ->
   snd (correlate_command_responses now tick serial_log mqtt_log)
   = Raise IndexError /\
   snd (generate_report now tick serial_log mqtt_log) = Raise IndexError) /\
  (~ In "" payloads ->
   exists correlations,
     snd (correlate_command_responses now tick serial_log mqtt_log)
     = Ok correlations /\
     map Corr.command correlations = payloads).
Proof.
  cbv zeta. split; [|split].
  - destruct (analyze_mqtt_log_inv now tick mqtt_log) as (Hc & _).
    destruct mqtt_log as [f|]; cbn [analyze_mqtt_log] in *.
    + pose proof (mqtt_facts_run now tick f) as H.
      destruct (fold_left (mqtt_line now) f (tick, mqtt_empty)) as [tick' r].
      cbn in *. destruct H as (_ & _ & _ & _ & _ & Hsound & Hcomplete).
      split.
      * intros H. apply in_map_iff in H. destruct H as (e & He & Hin).
        apply (Permutation_in _ Hc), filter_In in Hin.
        destruct Hin as (Hin & Hcmd). exists (Msg.topic e).
        split; [exact Hcmd|]. rewrite <- He. now apply Hsound.
      * intros (topic & Hcmd & Hp).
        destruct (Hcomplete _ _ Hp) as (ts & Hin).
        apply in_map_iff. eexists. split; [|
          apply (Permutation_in _ (Permutation_sym Hc)), filter_In;
          split; [exact Hin | exact Hcmd]].
        reflexivity.
    + cbn. split; [easy | now intros (? & _ & ?)].
  - intros H.
    assert (H1 : snd (correlate_command_responses now tick serial_log mqtt_log)
                 = Raise IndexError).
    { unfold correlate_command_responses.
      pose proof (@commands_stripped now tick mqtt_log) as Hs.
      destruct (analyze_mqtt_log now tick mqtt_log) as [t1 d1]. cbn [snd] in *.
      now apply correlate_by_payloads. }
    split; [exact H1|].
    unfold generate_report, analysis_run, correlate_command_responses.
    pose proof (command_payloads_clock_free now tick mqtt_log) as Hp1.
    destruct (analyze_mqtt_log now tick mqtt_log) as [t1 d1]. cbn [snd] in *.
    pose proof (@commands_stripped now t1 mqtt_log) as Hs.
    pose proof (command_payloads_clock_free now t1 mqtt_log) as Hp2.
    destruct (analyze_mqtt_log now t1 mqtt_log) as [t2 d2]. cbn [snd] in *.
    assert (Hraise : correlate (analyze_serial_log serial_log) d2
                     = Raise IndexError).
    { apply correlate_by_payloads; [exact Hs|]. now rewrite Hp2, <- Hp1. }
    now rewrite Hraise.
  - intros H. unfold correlate_command_responses.
    pose proof (@commands_stripped now tick mqtt_log) as Hs.
    destruct (analyze_mqtt_log now tick mqtt_log) as [t1 d1]. cbn [snd] in *.
    now apply correlate_by_payloads.
Qed.

End ReportRun.

Section ReportConsistency.
Implicit Types (serial_log mqtt_log : option (list string)).

Lemma map_eq_Forall2 (A C : Type) (f : A -> C) (l1 : list A) :
  forall l2, map f l1 = map f l2 -> Forall2 (fun a b => f a = f b) l1 l2.
Proof.
  induction l1 as [|a l1 IH]; intros [|b l2] H; cbn in H; try discriminate;
    constructor.
  - now injection H.
  - apply IH. now injection H.
Qed.

Lemma Forall2_compose (A B C : Type) (R : A -> B -> Prop) (Q : B -> C -> Prop)
  (l1 : list A) (l2 : list B) :
  Forall2 R l1 l2 ->
  forall l3, Forall2 Q l2 l3 ->
             Forall2 (fun a c => exists b, R a b /\ Q b c) l1 l3.
Proof.
  induction 1 as [|a b l1 l2 Hab _ IH]; intros l3 H23; inversion H23; subst;
    constructor.
  - now exists b.
  - now apply IH.
Qed.

(** Every status message of an analysis carries a reading of the clock
    made during that analysis. *)
Lemma status_timestamps (now : clock) (tick : nat) mqtt_log (s : Msg.entry) :
  In s (get status_messages [] (snd (analyze_mqtt_log now tick mqtt_log))) ->
  exists k,
    tick <= k < fst (analyze_mqtt_log now tick mqtt_log) /\
    Msg.timestamp s = now k.
Proof.
  intros H.
  destruct (topic_index_facts now tick mqtt_log) as (_ & Hin & _).
  assert (Hv : In s (DefaultDict.values
                       (get topics [] (snd (analyze_mqtt_log now tick mqtt_log)))))
    by (apply Hin; now right).
  clear H Hin. destruct mqtt_log as [f|]; [|destruct Hv].
  destruct (bus_records_facts now tick f) as (Hsound & _).
  now apply Hsound.
Qed.

(** The correlations of a run against its MQTT analysis.  In a run that
    ends well, there is one correlation per command of [mqtt_analysis], in
    order, with the payload and the topic of that command; its bus-side
    responses are, timestamps apart, the status messages of [mqtt_analysis]
    that answer the command, in order.  They are not the same records: the
    correlator parses the log again, and each of its responses carries a
    reading of the clock made after the first analysis had ended. *)
Theorem report_correlations_follow_the_summary (now : clock)
  (tick tick' : nat) serial_log mqtt_log
  (serial_data : analysis serial_results) (mqtt_data : analysis mqtt_results)
  (correlations : list Corr.entry) :
  analysis_run now tick serial_log mqtt_log
  = (tick', (serial_data, mqtt_data, Ok correlations)) ->
  serial_data = analyze_serial_log serial_log /\
  mqtt_data = snd (analyze_mqtt_log now tick mqtt_log) /\
  Forall2
    (fun cmd c =>
       Corr.command c = Msg.payload cmd /\
       Corr.topic c = Msg.topic cmd /\
       map erase_msg (Corr.mqtt_responses c)
       = map erase_msg
           (filter (responds cmd) (get status_messages [] mqtt_data)) /\
       Forall
         (fun s =>
            exists k,
              fst (analyze_mqtt_log now tick mqtt_log) <= k < tick' /\
              Msg.timestamp s = now k)
         (Corr.mqtt_responses c))
    (get commands_sent [] mqtt_data) correlations.
Proof.
  unfold analysis_run, correlate_command_responses.
  pose proof (analyze_mqtt_log_erase now tick mqtt_log) as He1.
  destruct (analyze_mqtt_log now tick mqtt_log) as [t1 d1]. cbn [fst snd] in *.
  pose proof (analyze_mqtt_log_erase now t1 mqtt_log) as He2.
  pose proof (@status_timestamps now t1 mqtt_log) as Hts.
  destruct (analyze_mqtt_log now t1 mqtt_log) as [t2 d2]. cbn [fst snd] in *.
  intros H. injection H as <- <- <- Hc.
  split; [reflexivity|]. split; [reflexivity|].
  unfold correlate in Hc. apply correlate_loop_ok in Hc.
  destruct Hc as (made & -> & Hall). cbn [app].
  assert (Hcmds : Forall2 (fun a b => erase_msg a = erase_msg b)
                    (get commands_sent [] d1) (get commands_sent [] d2)).
  { apply map_eq_Forall2.
    now rewrite <- !get_commands_erase, He1, He2. }
  assert (Hst : map erase_msg (get status_messages [] d2)
                = map erase_msg (get status_messages [] d1)).
  { now rewrite <- !get_status_erase, He1, He2. }
  pose proof (Forall2_compose Hcmds Hall) as Hboth.
  revert Hboth. apply Forall2_impl.
  intros cmd c (cmd2 & Hcmd & Hcorr).
  unfold correlate_command in Hcorr.
  destruct (first (split (Msg.payload cmd2))) as [token|e]; cbn [bind] in Hcorr;
    [|discriminate].
  injection Hcorr as <-. cbn.
  assert (Hp : Msg.payload cmd2 = Msg.payload cmd)
    by (apply (f_equal Msg.payload) in Hcmd; now cbn in Hcmd).
  assert (Ht : Msg.topic cmd2 = Msg.topic cmd)
    by (apply (f_equal Msg.topic) in Hcmd; now cbn in Hcmd).
  split; [exact Hp|]. split; [exact Ht|]. rewrite mqtt_scan_filter. split.
  - rewrite !filter_responds_erase, Hst. now rewrite Hcmd.
  - apply Forall_forall. intros s Hs. apply filter_In in Hs.
    apply Hts. now destruct Hs.
Qed.

(** A run with one command and one answer, from the theorem. *)
Lemma report_correlations_follow_the_summary_witness :
  let now : clock := fun k => match k with
                             | 0 => "09:00:00" | 1 => "09:00:01"
                             | 2 => "09:00:02" | _ => "09:00:03"
                             end in
  let mqtt_log := Some ["[MQTT] wordclock/command status" ++ LF;
                        "[MQTT] wordclock/status Status: OK" ++ LF] in
  exists correlations,
    snd (snd (analysis_run now 0 (Some []) mqtt_log)) = Ok correlations /\
    map Msg.timestamp
        (get status_messages [] (snd (fst (snd (analysis_run now 0 (Some [])
                                                  mqtt_log)))))
    = ["09:00:01"] /\
    map (fun c => map Msg.timestamp (Corr.mqtt_responses c)) correlations
    = [["09:00:03"]] /\
    length correlations = 1.
Proof.
  cbv zeta. eexists. split; [reflexivity|]. split; [reflexivity|].
  split; [reflexivity|].
  pose proof (@report_correlations_follow_the_summary
                (fun k => match k with
                          | 0 => "09:00:00" | 1 => "09:00:01"
                          | 2 => "09:00:02" | _ => "09:00:03"
                          end)
                0 _ (Some [])
                (Some ["[MQTT] wordclock/command status" ++ LF;
                       "[MQTT] wordclock/status Status: OK" ++ LF])
                _ _ _ eq_refl) as (_ & _ & H).
  rewrite <- (Forall2_length H). reflexivity.
Defined.

End ReportConsistency.

(* ------------------------------------------------------------------ *)
(** * The printed summary *)

Section Printing.

Lemma last_n_split (A : Type) (n : nat) (l : list A) :
  exists older,
    l = (older ++ last_n n l)%list /\ length (last_n n l) = min n (length l).
Proof.
  unfold last_n. exists (firstn (length l - n) l). split.
  - now rewrite firstn_skipn.
  - rewrite length_skipn. lia.
Qed.

Lemma in_file_order_app (older shown : list Log.entry) :
  in_file_order (older ++ shown) ->
  forall o s, In o older -> In s shown -> Log.oid o < Log.oid s.
Proof.
  unfold in_file_order. induction older as [|a older IH]; cbn; [easy|].
  intros H o s [<-|Ho] Hs.
  - apply StronglySorted_inv in H. destruct H as (_ & H).
    rewrite Forall_forall in H. apply H.
    rewrite map_app. apply in_or_app. right. now apply in_map.
  - apply StronglySorted_inv in H. now apply IH.
Qed.

(** The recent errors of the summary.  Nothing is printed about them when
    the log has no error line.  Otherwise the heading is followed by one
    line [[tag] message] for each of the last five errors of the file (for
    each error when there are fewer), in the order of the file, and by an
    empty line; the errors left out are those of earlier lines. *)
Theorem recent_errors_are_the_last_five (f : list string) :
  let data := analyze_serial_log (Some f) in
  let errs := get errors [] data in
  exists older shown,
    errs = (older ++ shown)%list /\
    length shown = min 5 (length errs) /\
    (forall e, In e shown -> logged f "E" e) /\
    (forall o s, In o older -> In s shown -> Log.oid o < Log.oid s) /\
    print_recent_errors data
    = match errs with
      | [] => []
      | _ :: _ =>
          ("   ❌ Recent Errors:" :: map recent_error_line shown ++ [""])%list
      end.
Proof.
  cbv zeta.
  set (errs := get errors [] (analyze_serial_log (Some f))).
  assert (He : forall e, In e errs <-> logged f "E" e)
    by now destruct (serial_facts_run f) as (_ & _ & _ & (He & _) & _).
  assert (Se : in_file_order errs)
    by now destruct (serial_facts_run f) as (_ & _ & _ & _ & (Se & _)).
  destruct (last_n_split 5 errs) as (older & Hsplit & Hlen).
  exists older, (last_n 5 errs).
  split; [exact Hsplit|]. split; [exact Hlen|]. split; [|split].
  - intros e Hin. apply He. rewrite Hsplit. apply in_or_app. now right.
  - apply in_file_order_app. now rewrite <- Hsplit.
  - reflexivity.
Qed.

End Printing.

(* ------------------------------------------------------------------ *)
(** * The errors, tag after tag *)

Section ErrorsByTag.
Implicit Types (r : serial_results) (e x : Log.entry).
Implicit Types (d : DefaultDict.t Log.entry).

Lemma firstn_1_app (A : Type) (l : list A) (a : A) :
  l <> [] -> firstn 1 (l ++ [a]) = firstn 1 l.
Proof. now destruct l. Qed.

(** The first records after [d[k].append(v)]: a new key comes last, a known
    key changes nothing. *)
Lemma first_records_append (k : string) x d :
  Forall (fun kv => snd kv <> []) d ->
  first_records (DefaultDict.append k x d)
  = (first_records d
     ++ if existsb (String.eqb k) (map fst d) then [] else [x])%list.
Proof.
  unfold first_records.
  induction d as [|[k0 vs] d IH]; intros H; [reflexivity|].
  apply Forall_cons_iff in H. destruct H as (Hvs & H). cbn in Hvs.
  cbn [DefaultDict.append map fst existsb].
  rewrite (String.eqb_sym k k0).
  destruct (String.eqb k0 k); cbn [orb flat_map snd].
  - now rewrite firstn_1_app, app_nil_r.
  - rewrite (IH H). now rewrite app_assoc.
Qed.

Lemma first_records_in_values d e :
  In e (first_records d) -> In e (DefaultDict.values d).
Proof.
  unfold first_records, DefaultDict.values.
  induction d as [|[k vs] d IH]; cbn; [easy|].
  intros H. apply in_app_iff in H. apply in_or_app.
  destruct H as [H|H]; [left | right; now apply IH].
  destruct vs; cbn in H; [easy|]. destruct H as [<-|[]]. now left.
Qed.

Lemma first_records_line r line :
  grouped_by Log.tag (esp_logs r) ->
  Forall (fun e => Log.oid e <= total_lines r)
         (DefaultDict.values (esp_logs r)) ->
  in_file_order (first_records (esp_logs r)) ->
  in_file_order (first_records (esp_logs (serial_line r line))).
Proof.
  intros (_ & Hgr) Hle Hord.
  destruct (esp_log_search_cases line) as [Hs|(lv & ts & tg & msg & Hs)].
  - now destruct (serial_line_none r _ Hs) as (_ & _ & _ & _ & ->).
  - destruct (serial_line_some r _ Hs) as (_ & _ & _ & _ & ->).
    rewrite first_records_append.
    + destruct (existsb (String.eqb tg) (map fst (esp_logs r)));
        [now rewrite app_nil_r|].
      apply in_file_order_snoc; [exact Hord|].
      intros y Hy. apply first_records_in_values in Hy.
      rewrite Forall_forall in Hle. specialize (Hle y Hy). cbn. lia.
    + revert Hgr. apply Forall_impl. now intros kv (? & _).
Qed.

Lemma first_records_fold (f : list string) :
  forall r,
    serial_inv r -> grouped_by Log.tag (esp_logs r) ->
    in_file_order (first_records (esp_logs r)) ->
    in_file_order (first_records (esp_logs (fold_left serial_line f r))).
Proof.
  induction f as [|line f IH]; cbn [fold_left]; intros r Hinv Hgr Hord;
    [exact Hord|].
  apply IH.
  - now apply serial_inv_line.
  - now apply esp_logs_grouped_line.
  - apply first_records_line; try assumption. now destruct Hinv.
Qed.

Lemma flat_map_agree (A B : Type) (g h : A -> list B) (l : list A) :
  (forall a, In a l -> g a = h a) -> flat_map g l = flat_map h l.
Proof.
  induction l as [|a l IH]; cbn; intros H; [reflexivity|].
  rewrite (H a (or_introl eq_refl)), IH; [reflexivity|].
  intros b Hb. apply H. now right.
Qed.

(** The values of a dictionary, filtered, are the filtered lists of its
    keys, key after key. *)
Lemma filter_values_by_key (p : Log.entry -> bool) d :
  NoDup (map fst d) ->
  filter p (DefaultDict.values d)
  = flat_map (fun t => filter p (DefaultDict.get t d)) (map fst d).
Proof.
  unfold DefaultDict.values.
  induction d as [|[k vs] d IH]; cbn; intros H; [reflexivity|].
  apply NoDup_cons_iff in H. destruct H as (Hk & H).
  rewrite filter_app, String.eqb_refl, (IH H). f_equal.
  apply flat_map_agree. intros t Ht.
  destruct (String.eqb_spec k t) as [->|_]; [contradiction | reflexivity].
Qed.

(** C8, amended.  For every device stream, the records of the tag index
    that are errors, taken tag after tag, are the errors of the first tag of
    the index in the order of the [errors] list, then those of the second
    tag, and so on: a rearrangement of the [errors] list (the same records,
    each as often) in which the errors of one tag keep the order of that
    list.  The tags of the index are distinct, none has an empty list, and
    they are in the order of their first record in the stream. *)
Theorem errors_by_tag (serial_log : option (list string)) :
  let data := analyze_serial_log serial_log in
  let errs := get errors [] data in
  let logs := get esp_logs [] data in
  Permutation (filter (is_error errs) (DefaultDict.values logs)) errs /\
  (forall t,
      filter (is_error errs) (DefaultDict.get t logs)
      = filter (fun e => Log.tag e =? t) errs) /\
  filter (is_error errs) (DefaultDict.values logs)
  = flat_map (fun t => filter (fun e => Log.tag e =? t) errs) (map fst logs) /\
  grouped_by Log.tag logs /\
  in_file_order (first_records logs).
Proof.
  cbv zeta.
  assert (Hgr : grouped_by Log.tag
                  (get esp_logs [] (analyze_serial_log serial_log)))
    by apply esp_logs_grouped.
  destruct serial_log as [f|]; cbn in *.
  - destruct (serial_inv_fold f serial_inv_empty) as (_ & _ & Hperm & Htag).
    split; [exact Hperm|]. split; [exact Htag|]. split; [|split].
    + rewrite (@filter_values_by_key _ _ (proj1 Hgr)).
      apply flat_map_ext. exact Htag.
    + exact Hgr.
    + apply first_records_fold.
      * apply serial_inv_empty.
      * split; constructor.
      * constructor.
  - repeat split; constructor.
Qed.

End ErrorsByTag.

(* ------------------------------------------------------------------ *)
(** * The bus-side responses of a log with a blank command *)

(** C5: what the code does instead.  The bus log below holds the command
    [status], the status message that answers it, and a command whose
    payload is white space only.  The status message passes the test of line
    121 for both commands, but the second command stops the correlator at
    line 125 with [IndexError]: no list of correlations is returned, and the
    status message is attached to neither command. *)
Theorem blank_command_loses_bus_responses :
  forall (now : clock) (tick : nat),
    let mqtt_log :=
      Some ["[MQTT] wordclock/command status" ++ LF;
            "[MQTT] wordclock/status Status: OK, brightness=50" ++ LF;
            "[MQTT] wordclock/command  " ++ LF] in
    let mqtt_data := snd (analyze_mqtt_log now tick mqtt_log) in
    map Msg.payload (get commands_sent [] mqtt_data) = ["status"; ""] /\
    map Msg.payload (get status_messages [] mqtt_data)
    = ["Status: OK, brightness=50"] /\
    (forall cmd status,
        In cmd (get commands_sent [] mqtt_data) ->
        In status (get status_messages [] mqtt_data) ->
        isin (lower (Msg.payload cmd)) (lower (Msg.payload status)) = true) /\
    snd (correlate_command_responses now tick (Some []) mqtt_log)
    = Raise IndexError.
Proof.
  intros now tick. cbv zeta.
  split; [reflexivity|]. split; [reflexivity|]. split; [|reflexivity].
  intros cmd status [<-|[<-|[]]] [<-|[]]; reflexivity.
Qed.
